(** * The winlog input runner ([eventlogRunner.Run]) and its checkpointed,
      cancellable read loop

    Shallow embedding of [Run] and [initCheckpoint] of the [winlog] input.
    The runner talks to four collaborators through Go interfaces
    ([eventlog.EventLog], [cursor.Cursor], [cursor.Publisher] and the input
    context); they are type classes over an abstract world [W] here, and every
    call the runner makes is appended, with its result, to a chronological
    call log kept next to the world. *)

From Stdlib Require Import List String ZArith Bool Lia Arith.
Import ListNotations.
Open Scope string_scope.
Open Scope list_scope.

(** ** Data model *)

(** Modelled from the spec: [checkpoint.EventLogState] is declared outside
    these sources; it is the opaque position marker of the data model, whose
    zero value stands for the start of the source. *)
Record EventLogState := mkState {
  Name : string;
  RecordNumber : Z;
  Bookmark : string
}.

(** [checkpoint.EventLogState{}] and [var cp checkpoint.EventLogState]. *)
Definition zeroState : EventLogState := mkState "" 0 "".

(** Modelled from the spec: the error classification of [eventlog] and [io]
    ([IsRecoverable], [IsChannelNotFound], [errors.Is(err, io.EOF)]) is
    declared outside these sources; an error value is "one of" these kinds. *)
Inductive Kind := Recoverable | ChannelNotFound | EndOfStream | Other.

(** Go error values: a base error with its kind and text, or the result of
    [fmt.Errorf] with a [%q] string and a wrapped ([%w]) cause. *)
Inductive Err :=
| Errno (k : Kind) (text : string)
| Errorf (format : string) (quoted : string) (cause : Err).

(** The Go type [error]; [None] is [nil]. *)
Definition error := option Err.

Fixpoint kindOf (e : Err) : Kind :=
  match e with
  | Errno k _ => k
  | Errorf _ _ cause => kindOf cause
  end.

Definition IsRecoverable (err : error) : bool :=
  match err with
  | Some e => match kindOf e with Recoverable => true | _ => false end
  | None => false
  end.

Definition IsChannelNotFound (err : error) : bool :=
  match err with
  | Some e => match kindOf e with ChannelNotFound => true | _ => false end
  | None => false
  end.

(** [errors.Is(err, io.EOF)] *)
Definition Is_EOF (e : Err) : bool :=
  match kindOf e with EndOfStream => true | _ => false end.

(** Modelled from the spec: [beat.Event] and [eventlog.Record] are declared
    outside these sources; a record is a raw event plus its position. *)
Record Event := mkEvent { Fields : string }.

Record Record_ := mkRecord {
  raw : string;
  Offset : EventLogState
}.

Definition ToEvent (record : Record_) : Event := mkEvent (raw record).

(** [status.Running] and [status.Degraded]. *)
Inductive Status := Running | Degraded.

(** Arguments of a [fmt.Sprintf] call; the rendering itself is left to [fmt]. *)
Inductive Arg :=
| AStr (s : string)
| AErr (err : error).

Inductive Message :=
| Lit (s : string)
| Sprintf (format : string) (args : list Arg).

(** [time.Duration], in nanoseconds. *)
Definition Duration := Z.
Definition Second : Duration := 1000000000%Z.

(** Every call the runner (or its cancellation callback) makes on a
    collaborator, in the order made; calls that return a value carry it. *)
Inductive Call :=
| CUnpack (err : error)
| COpen (cp : EventLogState) (err : error)
| CRead (records : list Record_) (err : error)
| CReset (err : error)
| CClose (err : error)
| CPublish (event : Event) (position : EventLogState) (err : error)
| CUpdateStatus (s : Status) (msg : Message)
| CWait (d : Duration)
| Log_Errorw (msg : string) (err : error)
| Log_Debugw (msg : string) (err : error)
| Log_Debug (msg : string)
| Log_Errorf (format : string) (err : error).

Definition pluginName := "winlog".
Definition channelNotFoundError :=
  "Encountered channel not found error when opening Windows Event Log".
Definition eventLogReadingError :=
  "Error occurred while reading from Windows Event Log".
Definition resetError := "Error resetting Windows Event Log handle".

(** ** The collaborators, as interfaces over a world [W] *)

(** [eventlog.EventLog] *)
Class EventLog (W : Type) := {
  api_Open : EventLogState -> W -> error * W;
  api_Read : W -> (list Record_ * error) * W;
  api_Reset : W -> error * W;
  api_Close : W -> error * W;
  api_IsFile : W -> bool;
  api_Channel : W -> string
}.

(** [cursor.Cursor]; [Unpack(&cp)] receives the value behind the pointer and
    gives back what it wrote there. *)
Class Cursor (W : Type) := {
  cursor_IsNew : W -> bool;
  cursor_Unpack : EventLogState -> W -> EventLogState * error
}.

(** [cursor.Publisher] *)
Class Publisher (W : Type) := {
  publisher_Publish : Event -> EventLogState -> W -> error * W
}.

(** The parts of [input.Context] the runner reads: [ctx.Cancelation.Err() != nil],
    the process-wide shutdown signal, and the passing of time under
    [timed.Wait]. *)
Class Canceler (W : Type) := {
  Cancelation_Err : W -> bool;
  elapse : Duration -> W -> W
}.

(** ** Runner state and its monad *)

Section Runner.

Context {W : Type} `{EventLog W} `{Cursor W} `{Publisher W} `{Canceler W}.

(** [world]: the collaborators; [calls]: the call log; [cancelCtx_Err]:
    whether [cancelCtx.Err() != nil]; [channelNotFoundErrDetected]: the local
    flag of [Run]. *)
Record St := mkSt {
  world : W;
  calls : list Call;
  cancelCtx_Err : bool;
  channelNotFoundErrDetected : bool
}.

Definition M (A : Type) := St -> A * St.

Definition ret {A} (a : A) : M A := fun st => (a, st).

Definition bind {A B} (m : M A) (k : A -> M B) : M B :=
  fun st => let (a, st') := m st in k a st'.

Notation "x <- m ;; k" := (bind m (fun x => k))
  (at level 61, m at next level, right associativity).
Notation "m ;;; k" := (bind m (fun _ => k))
  (at level 61, right associativity).

Definition emit (c : Call) : M unit :=
  fun st => (tt, mkSt (world st) (calls st ++ [c]) (cancelCtx_Err st)
                      (channelNotFoundErrDetected st)).

Definition gets {A} (f : W -> A) : M A := fun st => (f (world st), st).

Definition call {A} (f : W -> A * W) : M A :=
  fun st => let (a, w) := f (world st) in
            (a, mkSt w (calls st) (cancelCtx_Err st)
                     (channelNotFoundErrDetected st)).

Definition cancelCtx_done : M bool := fun st => (cancelCtx_Err st, st).

Definition set_cancelled : M unit :=
  fun st => (tt, mkSt (world st) (calls st) true
                      (channelNotFoundErrDetected st)).

Definition get_detected : M bool :=
  fun st => (channelNotFoundErrDetected st, st).

Definition set_detected (b : bool) : M unit :=
  fun st => (tt, mkSt (world st) (calls st) (cancelCtx_Err st) b).

(** *** [ctxtool.WithFunc]

    Modelled from the spec: [ctxtool.WithFunc] belongs to a library outside
    these sources. It is "a single registered cleanup action guaranteed to
    run exactly once on cancellation": the function given to it runs when the
    parent signal fires or when the returned cancel function is called,
    whichever comes first, and [cancelCtx] is done from then on. *)

(** The function registered in [Run]. *)
Definition closeCallback : M unit :=
  err <- call api_Close ;;
  emit (CClose err) ;;;
  match err with
  | Some _ =>
      emit (Log_Errorw "Error while closing Windows Event Log access" err)
  | None => ret tt
  end.

Definition fire : M unit :=
  done <- cancelCtx_done ;;
  if done then ret tt else set_cancelled ;;; closeCallback.

(** The asynchronous side. The callback runs on a goroutine of its own; here
    its one run is placed right after the collaborator call during which the
    shutdown signal arrived, so the signal is looked at whenever such a call
    has returned. *)
Definition poll : M unit :=
  signalled <- gets Cancelation_Err ;;
  if signalled then fire else ret tt.

(** [defer cancelFn()] *)
Definition cancelFn : M unit := fire.

(** *** Collaborator calls as the runner makes them *)

Definition callOpen (cp : EventLogState) : M error :=
  err <- call (api_Open cp) ;; emit (COpen cp err) ;;; poll ;;; ret err.

Definition callRead : M (list Record_ * error) :=
  r <- call api_Read ;; emit (CRead (fst r) (snd r)) ;;; poll ;;; ret r.

Definition callReset : M error :=
  err <- call api_Reset ;; emit (CReset err) ;;; poll ;;; ret err.

Definition callPublish (event : Event) (position : EventLogState) : M error :=
  err <- call (publisher_Publish event position) ;;
  emit (CPublish event position err) ;;; poll ;;; ret err.

Definition UpdateStatus (s : Status) (msg : Message) : M unit :=
  emit (CUpdateStatus s msg).

(** [timed.Wait(cancelCtx, d)]: returns at once when [cancelCtx] is done,
    otherwise when [d] has passed or the signal arrives. *)
Definition timed_Wait (d : Duration) : M unit :=
  emit (CWait d) ;;;
  done <- cancelCtx_done ;;
  if done then ret tt
  else call (fun w => (tt, elapse d w)) ;;; poll.

(** ** [initCheckpoint] *)

Definition initCheckpoint : M EventLogState :=
  let cp := zeroState in
  isNew <- gets cursor_IsNew ;;
  if isNew then ret cp
  else
    r <- gets (cursor_Unpack cp) ;;
    emit (CUnpack (snd r)) ;;;
    let err := snd r in
    match err with
    | Some _ =>
        emit (Log_Errorf
          "Reset winlog position. Failed to read checkpoint from registry: %v"
          err) ;;;
        ret zeroState
    | None => ret (fst r)
    end.

(** ** [Run] *)

(** The two loop heads of [Run]: the labelled outer [for] ([runLoop]) and the
    inner read loop. *)
Inductive Phase := Opening | Reading.

(** How one pass through a loop body ends. *)
Inductive Next :=
| Goto (ph : Phase)
| Return (err : error).

(** [for _, record := range records { ... }] *)
Fixpoint publishRecords (records : list Record_) : M error :=
  match records with
  | [] => ret None
  | record :: rest =>
      let event := ToEvent record in
      err <- callPublish event (Offset record) ;;
      match err with
      | Some _ =>
          UpdateStatus Degraded
            (Sprintf "Error occurred while publishing from winlog: %v"
               [AErr err]) ;;;
          ret err
      | None => publishRecords rest
      end
  end.

(** [if resetErr := api.Reset(); resetErr != nil { ... }] *)
Definition resetHandle : M unit :=
  resetErr <- callReset ;;
  match resetErr with
  | Some _ =>
      emit (Log_Errorw resetError resetErr) ;;;
      UpdateStatus Degraded (Sprintf "%s: %v" [AStr resetError; AErr resetErr])
  | None => ret tt
  end.

(** One pass from the head of [runLoop] down to the read loop. *)
Definition opening : M Next :=
  done <- cancelCtx_done ;;
  if done then ret (Return None)
  else
    evtCheckpoint <- initCheckpoint ;;
    openErr <- callOpen evtCheckpoint ;;
    UpdateStatus Running (Lit "") ;;;
    if IsRecoverable openErr then
      emit (Log_Errorw
        "Encountered recoverable error when opening Windows Event Log"
        openErr) ;;;
      timed_Wait (5 * Second)%Z ;;;
      ret (Goto Opening)
    else
      isFile <- gets api_IsFile ;;
      if negb isFile && IsChannelNotFound openErr then
        detected <- get_detected ;;
        (if negb detected then emit (Log_Errorw channelNotFoundError openErr)
         else emit (Log_Debugw channelNotFoundError openErr)) ;;;
        UpdateStatus Degraded
          (Sprintf "%s: %v" [AStr channelNotFoundError; AErr openErr]) ;;;
        set_detected true ;;;
        timed_Wait (5 * Second)%Z ;;;
        ret (Goto Opening)
      else
        match openErr with
        | Some e =>
            channel <- gets api_Channel ;;
            UpdateStatus Degraded
              (Sprintf "failed to open Windows Event Log channel %q: %v"
                 [AStr channel; AErr openErr]) ;;;
            channel' <- gets api_Channel ;;
            ret (Return (Some
              (Errorf "failed to open Windows Event Log channel %q: %w"
                 channel' e)))
        | None =>
            set_detected false ;;;
            emit (Log_Debug "Windows Event Log opened successfully") ;;;
            ret (Goto Reading)
        end.

(** One pass through the read loop, from its condition on. *)
Definition reading : M Next :=
  done <- cancelCtx_done ;;
  if done then ret (Goto Opening)
  else
    r <- callRead ;;
    let records := fst r in
    let err := snd r in
    if IsRecoverable err then
      emit (Log_Errorw
        "Encountered recoverable error when reading from Windows Event Log"
        err) ;;;
      resetHandle ;;;
      ret (Goto Opening)
    else
      isFile <- gets api_IsFile ;;
      if negb isFile && IsChannelNotFound err then
        emit (Log_Errorw
          "Encountered channel not found error when reading from Windows Event Log"
          err) ;;;
        resetHandle ;;;
        ret (Goto Opening)
      else
        match err with
        | Some e =>
            if Is_EOF e then
              emit (Log_Debugw "End of Winlog event stream reached" err) ;;;
              ret (Return None)
            else
              done' <- cancelCtx_done ;;
              if done' then ret (Return None)
              else
                emit (Log_Errorw eventLogReadingError err) ;;;
                UpdateStatus Degraded
                  (Sprintf "%s: %v" [AStr eventLogReadingError; AErr err]) ;;;
                ret (Return err)
        | None =>
            match records with
            | [] =>
                timed_Wait Second ;;;
                ret (Goto Reading)
            | _ :: _ =>
                perr <- publishRecords records ;;
                match perr with
                | Some _ => ret (Return perr)
                | None => ret (Goto Reading)
                end
            end
        end.

(** Where the runner is: at a loop head, or returned from the loops. *)
Inductive Config :=
| At (ph : Phase) (st : St)
| Halted (err : error) (st : St).

Definition step (c : Config) : Config :=
  match c with
  | At ph st =>
      let (next, st') :=
        match ph with Opening => opening st | Reading => reading st end in
      match next with
      | Goto ph' => At ph' st'
      | Return err => Halted err st'
      end
  | Halted _ _ => c
  end.

Fixpoint steps (n : nat) (c : Config) : Config :=
  match n with
  | O => c
  | S n' => steps n' (step c)
  end.

(** [Run] up to the head of [runLoop]: the callback is registered (and runs at
    once when the signal is already there), the flag is cleared and the
    status is set to Running. *)
Definition start (w : W) : Config :=
  let st0 := mkSt w [] false false in
  At Opening (snd ((poll ;;; set_detected false ;;;
                    UpdateStatus Running (Lit "")) st0)).

(** The loops of [Run], cut off after [fuel] passes: the returned error and
    the state at the [return] statement. *)
Definition runLoop (fuel : nat) (w : W) : option (error * St) :=
  match steps fuel (start w) with
  | Halted err st => Some (err, st)
  | At _ _ => None
  end.

(** [Run]: the loops, then the deferred [cancelFn()]. *)
Definition Run (fuel : nat) (w : W) : option (error * St) :=
  match runLoop fuel w with
  | Some (err, st) => Some (err, snd (cancelFn st))
  | None => None
  end.

End Runner.

Arguments St W : clear implicits.
Arguments Config W : clear implicits.

(** ** A scripted world

    A test double for the four collaborators: every answer is a function of
    the number of calls answered so far, and the shutdown signal fires once
    [cancelAt] calls have been answered. *)

Module Fake.

Record World := mkWorld {
  tick : nat;
  onOpen : nat -> error;
  onRead : nat -> list Record_ * error;
  onReset : nat -> error;
  onClose : nat -> error;
  onPublish : nat -> error;
  cancelAt : option nat;
  isFile : bool;
  channel : string;
  isNew : bool;
  stored : EventLogState * error
}.

Definition advance (w : World) : World :=
  mkWorld (S (tick w)) (onOpen w) (onRead w) (onReset w) (onClose w)
          (onPublish w) (cancelAt w) (isFile w) (channel w) (isNew w)
          (stored w).

#[export] Instance eventLog : EventLog World := {
  api_Open := fun _ w => (onOpen w (tick w), advance w);
  api_Read := fun w => (onRead w (tick w), advance w);
  api_Reset := fun w => (onReset w (tick w), advance w);
  api_Close := fun w => (onClose w (tick w), advance w);
  api_IsFile := isFile;
  api_Channel := channel
}.

#[export] Instance cursor : Cursor World := {
  cursor_IsNew := isNew;
  cursor_Unpack := fun _ w => stored w
}.

#[export] Instance publisher : Publisher World := {
  publisher_Publish := fun _ _ w => (onPublish w (tick w), advance w)
}.

#[export] Instance canceler : Canceler World := {
  Cancelation_Err := fun w =>
    match cancelAt w with
    | Some k => Nat.leb k (tick w)
    | None => false
    end;
  elapse := fun _ w => advance w
}.

Definition ok : nat -> error := fun _ => None.

Definition position (n : Z) : EventLogState := mkState "" n "".

End Fake.
Import Fake.

(** Scenario A of the specification: one record at position 10, then the
    end of the stream. *)
Definition scenarioA : World :=
  mkWorld 0 ok
    (fun t => match t with
              | 1 => ([mkRecord "a" (position 10)], None)
              | _ => ([], Some (Errno EndOfStream "EOF"))
              end)
    ok ok ok None true "Security" true (zeroState, None).

Definition disconnected : Err := Errno Other "client is not connected".

(** A batch of three whose second publish fails. *)
Definition publishFails : World :=
  mkWorld 0 ok
    (fun _ => ([mkRecord "a" (position 10); mkRecord "b" (position 11);
                mkRecord "c" (position 12)], None))
    ok ok
    (fun t => match t with 3 => Some disconnected | _ => None end)
    None false "Security" true (zeroState, None).

Definition corrupt : Err := Errno Other "invalid checkpoint".

(** A stored position that cannot be unpacked. *)
Definition corruptCheckpoint : World :=
  mkWorld 0 ok (fun _ => ([], None)) ok ok ok None false "Security" false
    (position 7, Some corrupt).

Definition staleHandle : Err := Errno Recoverable "invalid handle".
Definition resetFailed : Err := Errno Other "reset refused".

(** Scenario C: a Recoverable read error, and the reset fails. *)
Definition resetFails : World :=
  mkWorld 0 ok (fun _ => ([], Some staleHandle)) (fun _ => Some resetFailed)
    ok ok None false "Security" true (zeroState, None).

(** A Recoverable read error, and the reset succeeds. *)
Definition resetWorks : World :=
  mkWorld 0 ok (fun _ => ([], Some staleHandle)) ok ok ok None false
    "Security" true (zeroState, None).

Definition noChannel : Err := Errno ChannelNotFound "channel not found".

(** Scenario B: the channel of a live source is missing. *)
Definition channelMissing : World :=
  mkWorld 0 (fun _ => Some noChannel) (fun _ => ([], None)) ok ok ok None
    false "Missing" true (zeroState, None).

(** The same answer from an archived file. *)
Definition channelMissingFile : World :=
  mkWorld 0 (fun _ => Some noChannel) (fun _ => ([], None)) ok ok ok None
    true "archive.evtx" true (zeroState, None).

(** A file whose read reports a missing channel. *)
Definition readMissingFile : World :=
  mkWorld 0 ok (fun _ => ([], Some noChannel)) ok ok ok None true
    "archive.evtx" true (zeroState, None).

(** A source that never opens, and no shutdown. *)
Definition neverOpens : World :=
  mkWorld 0 (fun _ => Some staleHandle) (fun _ => ([], None)) ok ok ok None
    false "Security" true (zeroState, None).

Definition accessDenied : Err := Errno Other "access is denied".

(** The shutdown signal arrives while the first [open()] is in flight, and
    that [open()] fails. *)
Definition cancelledDuringOpen : World :=
  mkWorld 0 (fun _ => Some accessDenied) (fun _ => ([], None)) ok ok ok
    (Some 1) false "Security" true (zeroState, None).

(** A Recoverable read error, and the shutdown signal arrives while the
    reset is in flight. *)
Definition cancelledDuringReset : World :=
  mkWorld 0 ok (fun _ => ([], Some staleHandle)) ok ok ok (Some 3) false
    "Security" true (zeroState, None).

(** The shutdown signal arrives during the poll wait. *)
Definition cancelledWhileWaiting : World :=
  mkWorld 0 ok (fun _ => ([], None)) ok ok ok (Some 3) false "Security" true
    (zeroState, None).

(** ** Reading the call log *)

Definition closeLogMsg := "Error while closing Windows Event Log access".

(** Calls made by the cancellation callback rather than by the loops. *)
Definition asynchronous (c : Call) : bool :=
  match c with
  | CClose _ => true
  | Log_Errorw msg _ => String.eqb msg closeLogMsg
  | _ => false
  end.

(** The runner's own calls, in order. *)
Definition own (l : list Call) : list Call :=
  filter (fun c => negb (asynchronous c)) l.

Definition closes (l : list Call) : nat :=
  List.length
    (filter (fun c => match c with CClose _ => true | _ => false end) l).

Fixpoint statuses (l : list Call) : list (Status * Message) :=
  match l with
  | [] => []
  | CUpdateStatus s m :: l' => (s, m) :: statuses l'
  | _ :: l' => statuses l'
  end.

Fixpoint publishes (l : list Call) : list (Event * EventLogState * error) :=
  match l with
  | [] => []
  | CPublish ev pos err :: l' => (ev, pos, err) :: publishes l'
  | _ :: l' => publishes l'
  end.

Fixpoint opens (l : list Call) : list (EventLogState * error) :=
  match l with
  | [] => []
  | COpen cp err :: l' => (cp, err) :: opens l'
  | _ :: l' => opens l'
  end.

Fixpoint waits (l : list Call) : list Duration :=
  match l with
  | [] => []
  | CWait d :: l' => d :: waits l'
  | _ :: l' => waits l'
  end.

(** The status an observer of the status sink holds after the calls [l]. *)
Definition lastStatus (l : list Call) : option (Status * Message) :=
  last (map Some (statuses l)) None.

(** ** Vocabulary of the statements *)

Section Vocabulary.

Context {W : Type} `{EventLog W} `{Cursor W} `{Publisher W} `{Canceler W}.

(** [close()] has run once if [cancelCtx] is done, and not at all otherwise. *)
Definition closedOnce (st : St W) : Prop :=
  closes (calls st) = if cancelCtx_Err st then 1 else 0.

(** What the asynchronous side may have done between [st] and [st']: nothing,
    or the one run of the callback. *)
Inductive Async (st st' : St W) : Prop :=
| async_none : st' = st -> Async st st'
| async_fired l :
    cancelCtx_Err st = false ->
    Cancelation_Err (world st) = true ->
    cancelCtx_Err st' = true ->
    channelNotFoundErrDetected st' = channelNotFoundErrDetected st ->
    world st' = snd (api_Close (world st)) ->
    calls st' = calls st ++ l ->
    own l = [] -> closes l = 1 -> statuses l = [] -> publishes l = [] ->
    opens l = [] -> waits l = [] ->
    Async st st'.

(** [m] keeps [closedOnce]. *)
Definition keeps {A} (m : M A) : Prop :=
  forall st : St W, closedOnce st -> closedOnce (snd (m st)).

(** The state of a configuration. *)
Definition stateOf (c : Config W) : St W :=
  match c with At _ st => st | Halted _ st => st end.

(** [st'] is [st] after the call [c] was answered, leaving the world [w],
    and after whatever the asynchronous side did then. *)
Definition answered (st : St W) (c : Call) (w : W) (st' : St W) : Prop :=
  exists l, calls st' = calls st ++ c :: l /\ own l = [] /\
    channelNotFoundErrDetected st' = channelNotFoundErrDetected st /\
    (cancelCtx_Err st = true -> cancelCtx_Err st' = true) /\
    (cancelCtx_Err st' = false ->
       world st' = w /\ l = [] /\ Cancelation_Err w = false) /\
    (Cancelation_Err w = true -> cancelCtx_Err st' = true) /\
    (Cancelation_Err w = false -> cancelCtx_Err st' = cancelCtx_Err st).

Definition openFailedFormat :=
  "failed to open Windows Event Log channel %q: %v".
Definition openFailedWrap :=
  "failed to open Windows Event Log channel %q: %w".
Definition recoverableOpenMsg :=
  "Encountered recoverable error when opening Windows Event Log".

(** The runner's calls after [open()] has returned [openErr] and Running has
    been written, by the class of [openErr]. *)
Definition afterOpen (detected isFile : bool) (channel : string)
    (openErr : error) : list Call :=
  if IsRecoverable openErr then
    [Log_Errorw recoverableOpenMsg openErr; CWait (5 * Second)%Z]
  else if negb isFile && IsChannelNotFound openErr then
    [(if detected then Log_Debugw channelNotFoundError openErr
      else Log_Errorw channelNotFoundError openErr);
     CUpdateStatus Degraded
       (Sprintf "%s: %v" [AStr channelNotFoundError; AErr openErr]);
     CWait (5 * Second)%Z]
  else
    match openErr with
    | Some _ =>
        [CUpdateStatus Degraded
           (Sprintf openFailedFormat [AStr channel; AErr openErr])]
    | None => [Log_Debug "Windows Event Log opened successfully"]
    end.

(** Where the pass goes from there. *)
Definition openOutcome (isFile : bool) (channel : string) (openErr : error)
    : Next :=
  if IsRecoverable openErr then Goto Opening
  else if negb isFile && IsChannelNotFound openErr then Goto Opening
  else
    match openErr with
    | Some e => Return (Some (Errorf openFailedWrap channel e))
    | None => Goto Reading
    end.

(** The flag after the pass. *)
Definition flagAfterOpen (detected isFile : bool) (openErr : error) : bool :=
  if IsRecoverable openErr then detected
  else if negb isFile && IsChannelNotFound openErr then true
  else
    match openErr with
    | Some _ => detected
    | None => false
    end.

(** The state a pass is left in after a Recoverable [open()] error. *)
Definition retryState (st1 : St W) (openErr : error) : St W :=
  snd (timed_Wait (5 * Second)%Z
         (snd (emit (Log_Errorw recoverableOpenMsg openErr)
                 (snd (UpdateStatus Running (Lit "") st1))))).

Definition recoverableReadMsg :=
  "Encountered recoverable error when reading from Windows Event Log".
Definition channelNotFoundReadMsg :=
  "Encountered channel not found error when reading from Windows Event Log".
Definition publishFailedFormat :=
  "Error occurred while publishing from winlog: %v".

(** The runner's calls for [api.Reset()] returning [resetErr]. *)
Definition afterReset (resetErr : error) : list Call :=
  CReset resetErr ::
  match resetErr with
  | Some _ =>
      [Log_Errorw resetError resetErr;
       CUpdateStatus Degraded (Sprintf "%s: %v" [AStr resetError; AErr resetErr])]
  | None => []
  end.

(** [publisher.Publish(record.ToEvent(), record.Offset)], answered with nil. *)
Definition published (record : Record_) : Call :=
  CPublish (ToEvent record) (Offset record) None.

(** The status written when a publish fails with [err]. *)
Definition publishFailed (err : error) : Call :=
  CUpdateStatus Degraded (Sprintf publishFailedFormat [AErr err]).

(** [m] leaves the flag [channelNotFoundErrDetected] as it was. *)
Definition steady {A} (m : M A) : Prop :=
  forall st : St W,
    channelNotFoundErrDetected (snd (m st)) = channelNotFoundErrDetected st.

End Vocabulary.

Arguments keeps W {A} m.
Arguments steady W {A} m.

(** The state the run from [w] is in after [k] passes. *)
Definition reached (w : World) (k : nat) : St World :=
  stateOf (steps k (start w)).

(** The worlds [neverOpens] passes through. *)
Definition stillFailing (w : World) : Prop :=
  (forall t, onOpen w t = Some staleHandle) /\ cancelAt w = None.

(** ** More of the call log *)

(** The answers of [read()], in order. *)
Fixpoint reads (l : list Call) : list (list Record_ * error) :=
  match l with
  | [] => []
  | CRead records err :: l' => (records, err) :: reads l'
  | _ :: l' => reads l'
  end.

(** The answers of [cursor.Unpack], in order. *)
Fixpoint unpacks (l : list Call) : list error :=
  match l with
  | [] => []
  | CUnpack err :: l' => err :: unpacks l'
  | _ :: l' => unpacks l'
  end.

(** The records of the batches read without error, in the order read. *)
Fixpoint batches (l : list Call) : list Record_ :=
  match l with
  | [] => []
  | CRead records None :: l' => records ++ batches l'
  | _ :: l' => batches l'
  end.

(** What [publisher.Publish] is given for a record. *)
Definition offer (record : Record_) : Event * EventLogState :=
  (ToEvent record, Offset record).

(** What was handed to the publisher, accepted or not, in order. *)
Fixpoint offered (l : list Call) : list (Event * EventLogState) :=
  match l with
  | [] => []
  | CPublish event position _ :: l' => (event, position) :: offered l'
  | _ :: l' => offered l'
  end.

(** Whether the latest [open()] of [l] succeeded; [opened] when there is
    none. *)
Fixpoint openedAfter (opened : bool) (l : list Call) : bool :=
  match l with
  | [] => opened
  | COpen _ None :: l' => openedAfter true l'
  | COpen _ (Some _) :: l' => openedAfter false l'
  | _ :: l' => openedAfter opened l'
  end.

(** Every [read()], [reset()] and [publish()] of [l] comes when the latest
    [open()] before it succeeded. *)
Fixpoint usesOpenHandle (opened : bool) (l : list Call) : bool :=
  match l with
  | [] => true
  | COpen _ None :: l' => usesOpenHandle true l'
  | COpen _ (Some _) :: l' => usesOpenHandle false l'
  | CRead _ _ :: l' => opened && usesOpenHandle opened l'
  | CReset _ :: l' => opened && usesOpenHandle opened l'
  | CPublish _ _ _ :: l' => opened && usesOpenHandle opened l'
  | _ :: l' => usesOpenHandle opened l'
  end.

(** The runner's calls of a read-loop pass after [read()] has returned
    [(records, err)], with how the pass ends; [cancelled] is whether
    [cancelCtx] was done when [read()] had returned. *)
Inductive ReadTail (records : list Record_) (err : error) (cancelled : bool)
    : Next -> list Call -> Prop :=
| tail_reset msg resetErr :
    err <> None ->
    ReadTail records err cancelled (Goto Opening)
      (Log_Errorw msg err :: afterReset resetErr)
| tail_eof e :
    err = Some e -> Is_EOF e = true ->
    ReadTail records err cancelled (Return None)
      [Log_Debugw "End of Winlog event stream reached" err]
| tail_race e :
    err = Some e -> cancelled = true ->
    ReadTail records err cancelled (Return None) []
| tail_fatal e :
    err = Some e -> cancelled = false ->
    ReadTail records err cancelled (Return err)
      [Log_Errorw eventLogReadingError err;
       CUpdateStatus Degraded
         (Sprintf "%s: %v" [AStr eventLogReadingError; AErr err])]
| tail_wait :
    err = None -> records = [] ->
    ReadTail records err cancelled (Goto Reading) [CWait Second]
| tail_published :
    err = None -> records <> [] ->
    ReadTail records err cancelled (Goto Reading) (map published records)
| tail_refused sent record rest e :
    err = None -> records = sent ++ record :: rest ->
    ReadTail records err cancelled (Return (Some e))
      (map published sent ++
       [CPublish (ToEvent record) (Offset record) (Some e);
        publishFailed (Some e)]).

(** ** The checkpoint of a pass *)

Section StoredCheckpoint.

Context {W : Type} `{Cursor W}.

(** What the cursor of the world [w] holds for [initCheckpoint]: nothing
    when it is new, else the answer of [Unpack]. *)
Definition unpacked (w : W) : option (EventLogState * error) :=
  if cursor_IsNew w then None else Some (cursor_Unpack zeroState w).

(** The checkpoint a pass starts from. *)
Definition resumeFrom (w : W) : EventLogState :=
  match unpacked w with
  | Some (cp, None) => cp
  | _ => zeroState
  end.

(** The calls [initCheckpoint] makes. *)
Definition unpackCalls (w : W) : list Call :=
  match unpacked w with
  | None => []
  | Some (_, None) => [CUnpack None]
  | Some (_, Some e) =>
      [CUnpack (Some e);
       Log_Errorf
         "Reset winlog position. Failed to read checkpoint from registry: %v"
         (Some e)]
  end.

End StoredCheckpoint.

(** ** [eventlogRunner.Test] *)

Section SelfTest.

Context {W : Type} `{EventLog W}.

(** [Test] opens the source with an empty checkpoint and closes it again; it
    registers no cancellation callback. *)
Definition Test : @M W error :=
  bind (call (api_Open zeroState)) (fun err =>
  bind (emit (COpen zeroState err)) (fun _ =>
  match err with
  | Some e =>
      bind (gets api_Channel) (fun channel =>
      ret (Some (Errorf "failed to open %q: %w" channel e)))
  | None =>
      bind (call api_Close) (fun cerr =>
      bind (emit (CClose cerr)) (fun _ => ret cerr))
  end)).

End SelfTest.

(** ** Two more scripted worlds *)

(** A source with nothing to read, and no shutdown. *)
Definition idle : World :=
  mkWorld 0 ok (fun _ => ([], None)) ok ok ok None false "Security" true
    (zeroState, None).

(** A cursor that holds position 42. *)
Definition resuming : World :=
  mkWorld 0 ok (fun _ => ([], None)) ok ok ok None false "Security" false
    (position 42, None).

(** ** The call log and the shutdown signal *)

(** Whether the call logs a missing channel on [open()], at either level. *)
Definition reports (c : Call) : bool :=
  match c with
  | Log_Errorw msg _ => String.eqb msg channelNotFoundError
  | Log_Debugw msg _ => String.eqb msg channelNotFoundError
  | _ => false
  end.

(** Whether a missing channel has been logged since the latest successful
    [open()] of [l]; [reported] when [l] holds neither. *)
Fixpoint reportedAfter (reported : bool) (l : list Call) : bool :=
  match l with
  | [] => reported
  | COpen _ None :: l' => reportedAfter false l'
  | c :: l' => reportedAfter (reports c || reported) l'
  end.

Section Signal.

Context {W : Type} {signal : Canceler W}.

(** A shutdown signal that stands in the world of [st] has been observed:
    the callback has run and [cancelCtx] is done. *)
Definition observed (st : St W) : Prop :=
  Cancelation_Err (world st) = true -> cancelCtx_Err st = true.

(** [m] leaves no signal unobserved. *)
Definition sees {A} (m : M A) : Prop :=
  forall st : St W, observed st -> observed (snd (m st)).

(** [m] adds no successful [open()] and no missing-channel log. *)
Definition silent {A} (m : M A) : Prop :=
  forall st : St W, exists l,
    calls (snd (m st)) = calls st ++ l /\ forall b, reportedAfter b l = b.

End Signal.

Arguments sees W {signal A} m.
Arguments silent W {A} m.

(** The worlds of a source whose [open()] fails with a stale handle whenever
    it is called, whether or not a shutdown is scheduled. *)
Definition keepsFailing (w : World) : Prop :=
  forall t, onOpen w t = Some staleHandle.

(** A missing channel that comes back: two failed [open()]s, a successful
    one, a stale handle on the first [read()], and the channel is missing
    again. *)
Definition channelFlaps : World :=
  mkWorld 0 (fun t => match t with 4 => None | _ => Some noChannel end)
    (fun _ => ([], Some staleHandle)) ok ok ok None false "Missing" true
    (zeroState, None).

(** [open()] keeps failing with a stale handle, and the shutdown signal
    arrives during the second 5 second wait. *)
Definition cancelledWhileRetrying : World :=
  mkWorld 0 (fun _ => Some staleHandle) (fun _ => ([], None)) ok ok ok
    (Some 4) false "Security" true (zeroState, None).

(** The shutdown signal arrives while [read()] is in flight; the batch it
    returns is refused by the publisher. *)
Definition cancelledDuringRead : World :=
  mkWorld 0 ok (fun _ => ([mkRecord "a" (position 10)], None)) ok ok
    (fun _ => Some disconnected) (Some 2) false "Security" true
    (zeroState, None).

(** * The [filebeat] configuration provider ([provider.Retrieve]) *)

Module Provider.

Definition schemeName := "filebeat".

(** What goes into the configuration map: nested maps (as association
    lists, in the order of the source text), lists of strings, and the two
    values that come from the collaborators. *)
Unset Elimination Schemes.
Inductive Any (OTel Raw : Type) :=
| Map (entries : list (string * Any OTel Raw))
| Strings (l : list string)
| OfOTel (c : OTel)
| OfRaw (m : Raw).
Set Elimination Schemes.

Arguments Map {OTel Raw} entries.
Arguments Strings {OTel Raw} l.
Arguments OfOTel {OTel Raw} c.
Arguments OfRaw {OTel Raw} m.

(** The collaborators of [Retrieve]: [filepath.Clean], [cfgfile.Load],
    [elasticsearch.ToOTelConfig], the configuration object ([config.NewConfig],
    [SetString], [SetChild], [Unpack]; the errors of the last three are
    dropped by the source), [json.MarshalIndent] (error dropped) and
    [confmap.NewRetrieved]. *)
Class Loader (Cfg OTel Raw Retrieved E : Type) := {
  filepath_Clean : string -> string;
  cfgfile_Load : string -> Cfg + E;
  ToOTelConfig : Cfg -> OTel + E;
  NewConfig : Cfg;
  SetString : string -> Z -> string -> Cfg -> Cfg;
  SetChild : string -> Z -> Cfg -> Cfg -> Cfg;
  Unpack : Cfg -> Raw;
  MarshalIndent : Any OTel Raw -> string -> string -> string;
  NewRetrieved : Any OTel Raw -> Retrieved + E
}.

(** The errors of [Retrieve]: its own [fmt.Errorf], or a collaborator's error
    handed on. *)
Inductive RetrieveError (E : Type) :=
| Errorf_qq (format : string) (uri scheme : string)
| Passed (err : E).

Arguments Errorf_qq {E} format uri scheme.
Arguments Passed {E} err.

Section Retrieve.

Context {Cfg OTel Raw Retrieved E : Type} `{Loader Cfg OTel Raw Retrieved E}.

(** [uri[n:]] *)
Definition sliceFrom (n : nat) (uri : string) : string :=
  substring n (String.length uri - n) uri.

(** The literal [cfgMap] of [Retrieve]. *)
Definition cfgMap (esCfg : OTel) (receiverMap : Raw) : Any OTel Raw :=
  Map [("exporters",
        Map [("elasticsearch", OfOTel esCfg); ("debug", Map [])]);
       ("receivers", Map [("filebeatreceiver", OfRaw receiverMap)]);
       ("service",
        Map [("pipeline",
              Map [("logs",
                    Map [("exporters", Strings ["debug"]);
                         ("receivers", Strings ["filebeatreceiver"])])])])].

(** [Retrieve]: what it prints, and what it returns. *)
Definition Retrieve (uri : string)
    : list string * (Retrieved + RetrieveError E) :=
  if negb (prefix (schemeName ++ ":") uri) then
    ([], inr (Errorf_qq "%q uri is not supported by %q provider" uri schemeName))
  else
    match cfgfile_Load
            (filepath_Clean (sliceFrom (String.length schemeName + 1) uri)) with
    | inr err => ([], inr (Passed err))
    | inl cfg =>
        match ToOTelConfig cfg with
        | inr err => ([], inr (Passed err))
        | inl esCfg =>
            let newCfg := SetString "otelconsumer" (-1) "" NewConfig in
            let cfg := SetChild "output" (-1) newCfg cfg in
            let receiverMap := Unpack cfg in
            let m := cfgMap esCfg receiverMap in
            let s := MarshalIndent m "" " " in
            ([s],
             match NewRetrieved m with
             | inl r => inl r
             | inr err => inr (Passed err)
             end)
        end
    end.

(** [Scheme] *)
Definition Scheme : string := schemeName.

End Retrieve.

End Provider.

(** * The [winlog] plugin configuration ([configure]) *)

Module Configure.

(** The collaborators of [configure]: the configuration object
    ([HasField], and [Unpack] into a struct with the one field
    [event_logs]) and [eventlog.New]. *)
Class Config (C Source : Type) := {
  HasField : C -> string -> bool;
  Unpack_EventLogs : C -> list C + Err;
  eventlog_New : C -> Source + Err
}.

(** [eventlogRunner{}] *)
Inductive Input := eventlogRunner.

(** The errors of [configure]: the one of [Unpack] handed on, or
    [fmt.Errorf] around the one of [eventlog.New]. *)
Inductive ConfigureError :=
| Passed (err : Err)
| Errorf_w (format : string) (cause : Err).

Section Configure.

Context {C Source : Type} `{Config C Source}.

(** [for i, cfg := range cfgs { ... sources[i] = eventLog }] *)
Fixpoint newSources (cfgs : list C) : list Source + ConfigureError :=
  match cfgs with
  | [] => inl []
  | cfg :: rest =>
      match eventlog_New cfg with
      | inr err => inr (Errorf_w "failed to create new event log. %w" err)
      | inl eventLog =>
          match newSources rest with
          | inl sources => inl (eventLog :: sources)
          | inr err => inr err
          end
      end
  end.

Definition configure (cfg : C) : (list Source * Input) + ConfigureError :=
  match
    (if HasField cfg "event_logs" then
       match Unpack_EventLogs cfg with
       | inr err => inr (Passed err)
       | inl eventLogs => inl eventLogs
       end
     else inl [cfg])
  with
  | inr err => inr err
  | inl cfgs =>
      match newSources cfgs with
      | inl sources => inl (sources, eventlogRunner)
      | inr err => inr err
      end
  end.

End Configure.

End Configure.

(** * The [add_session_metadata] processor *)

Module Sessionmd.

(** ** [pidToUInt32] *)

(** The dynamic types [pidToUInt32] tells apart. *)
Inductive IntKind := KInt | KInt8 | KInt16 | KInt32 | KInt64.
Inductive UintKind := KUint | KUintptr | KUint8 | KUint16 | KUint64.

(** A Go [interface{}] value: a string, a [uint32], a signed or unsigned
    integer of another kind with its numeric value, or a value of some other
    type (with the name [%T] prints). *)
Inductive Value :=
| VString (v : string)
| VUint32 (v : Z)
| VSigned (k : IntKind) (v : Z)
| VUnsigned (k : UintKind) (v : Z)
| VOther (typ : string).

(** [uint32(n)]: the low 32 bits. *)
Definition uint32 (n : Z) : Z := n mod 2 ^ 32.

Section Pid.

(** [strconv.Atoi], with its error type. *)
Context {NumError : Type} (Atoi : string -> Z + NumError).

Inductive PidError :=
| Errorf_w (format : string) (cause : NumError)
| Errorf_d (format : string) (n : Z)
| Errorf_T (format : string) (typ : string).

Definition pidToUInt32 (value : Value) : Z + PidError :=
  match value with
  | VString v =>
      match Atoi v with
      | inr err => inr (Errorf_w "error converting string to integer: %w" err)
      | inl nr => inl (uint32 nr)
      end
  | VUint32 v => inl v
  | VSigned _ pid64 =>
      let pid := uint32 pid64 in
      if negb (pid =? pid64)%Z
      then inr (Errorf_d "integer out of range: %d" pid64)
      else inl pid
  | VUnsigned _ pidu64 =>
      let pid := uint32 pidu64 in
      if negb (pid =? pidu64)%Z
      then inr (Errorf_d "integer out of range: %d" pidu64)
      else inl pid
  | VOther typ => inr (Errorf_T "not an integer or string, but %T" typ)
  end.

End Pid.

Arguments Errorf_w {NumError} format cause.
Arguments Errorf_d {NumError} format n.
Arguments Errorf_T {NumError} format typ.

(** ** [tryToMapStr] *)

(** What [ev.Fields["process"]] can hold: a [mapstr.M], a
    [map[string]interface{}], or something else; a map is known by its
    reference. *)
Inductive FieldValue (MapRef : Type) :=
| IsM (m : MapRef)
| IsMap (m : MapRef)
| IsOther.

Arguments IsM {MapRef} m.
Arguments IsMap {MapRef} m.
Arguments IsOther {MapRef}.

(** [tryToMapStr]; [None] is [(nil, false)]. *)
Definition tryToMapStr {MapRef : Type} (v : FieldValue MapRef)
    : option MapRef :=
  match v with
  | IsM m => Some m
  | IsMap m => Some m
  | IsOther => None
  end.

(** ** [Run] and [enrich] *)

(** The fields of [addSessionMetadata] that [Run] and [enrich] read. *)
Record Processor := mkProcessor {
  config_PIDField : string;
  config_Backend : string;
  backend : string
}.

(** The collaborators of [Run] and [enrich], over a world [W] that holds the
    events, the process database and the provider: events and maps are
    references into it. [GetValue], [HasKey] and indexing [Fields] only read
    it. *)
Class Enricher (W Ev MapRef Proc ProcMap E : Type) := {
  ev_GetValue : Ev -> string -> W -> Value + E;
  provider_SyncDB : Ev -> Z -> W -> option E * W;
  provider_GetProcess : Z -> W -> (Proc + E) * W;
  db_GetProcess : Z -> W -> (Proc + E) * W;
  ToMap : Proc -> ProcMap;
  Fields_HasKey : Ev -> string -> W -> bool * option E;
  Fields_at : Ev -> string -> W -> FieldValue MapRef;
  ev_Clone : Ev -> W -> Ev * W;
  MergeFieldsDeep : MapRef -> ProcMap -> bool -> W -> option E * W;
  Fields_put : Ev -> string -> MapRef -> W -> W;
  logger_Warnw : string -> Z -> E -> W -> W
}.

Section RunEnrich.

Context {W Ev MapRef Proc ProcMap E NumError : Type}
        `{Enricher W Ev MapRef Proc ProcMap E}
        (Atoi : string -> Z + NumError).

(** The errors [enrich] makes. *)
Inductive EnrichError :=
| EPassed (err : E)
| EErrorf_sw (format : string) (field : string) (cause : @PidError NumError)
| EErrorf_vw (format : string) (pid : Z) (cause : E)
| EErrorf (format : string)
| EErrorf_w (format : string) (cause : E).

(** The errors [Run] returns. *)
Inductive RunError :=
| RPassed (err : E)
| RErrorf_w (format : string) (cause : EnrichError).

(** [enrich]: the new event (or nil), the error (or nil), and the world
    after. *)
Definition enrich (p : Processor) (ev : Ev) (w : W)
    : (option Ev * option EnrichError) * W :=
  match ev_GetValue ev (config_PIDField p) w with
  | inr err => ((None, Some (EPassed err)), w)
  | inl pidIf =>
      match pidToUInt32 Atoi pidIf with
      | inr err =>
          ((None,
            Some (EErrorf_sw "cannot parse pid field '%s': %w"
                    (config_PIDField p) err)), w)
      | inl pid =>
          let (found, w1) :=
            if String.eqb (backend p) "kernel_tracing"
            then provider_GetProcess pid w
            else db_GetProcess pid w in
          match found with
          | inr err =>
              ((None, Some (EErrorf_vw "pid %v not found in db: %w" pid err)),
               logger_Warnw "PID not found in provider" pid err w1)
          | inl fullProcess =>
              let processMap := ToMap fullProcess in
              let (b, herr) := Fields_HasKey ev "process" w1 in
              if negb b || match herr with Some _ => true | None => false end
              then ((None, Some (EErrorf "no process field in event")), w1)
              else
                match tryToMapStr (Fields_at ev "process" w1) with
                | None =>
                    ((None,
                      Some (EErrorf "process field type not supported")), w1)
                | Some m =>
                    let (result, w2) := ev_Clone ev w1 in
                    let (merr, w3) := MergeFieldsDeep m processMap true w2 in
                    match merr with
                    | Some err =>
                        ((None,
                          Some (EErrorf_w
                                  "merging enriched fields with event: %w"
                                  err)), w3)
                    | None =>
                        ((Some result, None),
                         Fields_put result "process" m w3)
                    end
                end
          end
      end
  end.

(** [v == "fail"] for an [interface{}] [v]. *)
Definition isFail (v : Value) : bool :=
  match v with
  | VString s => String.eqb s "fail"
  | _ => false
  end.

(** [Run]: the event returned (or nil), the error (or nil), and the world
    after. *)
Definition Run (p : Processor) (ev : Ev) (w : W)
    : (option Ev * option RunError) * W :=
  match ev_GetValue ev (config_PIDField p) w with
  | inr _ => ((Some ev, None), w)
  | inl pi =>
      if match ev_GetValue ev "auditd.result" w with
         | inl v => isFail v
         | inr _ => false
         end
      then ((Some ev, None), w)
      else
        match pidToUInt32 Atoi pi with
        | inr _ => ((Some ev, None), w)
        | inl pid =>
            let (serr, w1) := provider_SyncDB ev pid w in
            match serr with
            | Some err => ((Some ev, Some (RPassed err)), w1)
            | None =>
                let '((result, eerr), w2) := enrich p ev w1 in
                match eerr with
                | Some err =>
                    ((Some ev, Some (RErrorf_w "enriching event: %w" err)), w2)
                | None => ((result, None), w2)
                end
            end
        end
  end.

End RunEnrich.

(** ** [New] and [Close] *)

(** [config], as far as [New] reads it. *)
Record config := mkConfig {
  Backend : string;
  PIDField : string
}.

(** What [New] and [Close] do to the outside, in order. *)
Inductive Action :=
| Beta (msg : string)
| WithCancel
| NewDB
| ScrapeProcfs
| NewKernelTracingProvider
| NewProcfsProvider (pidField : string)
| Cancel
| DBClose
| Info (msg : string).

(** The collaborators of [New]: [defaultConfig], [cfg.Unpack] into it,
    [processdb.NewDB] and the two provider constructors. The logger and the
    procfs reader are made by constructors that cannot fail and are left
    out. *)
Class Builder (Cfg DB Prov E : Type) := {
  defaultConfig : config;
  cfg_Unpack : Cfg -> config -> config + E;
  processdb_NewDB : DB + E;
  kerneltracingprovider_NewProvider : Prov + E;
  procfsprovider_NewProvider : DB -> string -> Prov + E
}.

Section NewClose.

Context {Cfg DB Prov E : Type} `{Builder Cfg DB Prov E}.

(** What [New] builds: the [db], the [provider] and the [backend] and
    [config] fields. *)
Record Built := mkBuilt {
  built_config : config;
  built_db : DB;
  built_provider : Prov;
  built_backend : string
}.

Inductive NewError :=
| NErrorf_vw (format : string) (name : string) (cause : E)
| NErrorf_w (format : string) (cause : E)
| NErrorf (format : string).

Definition processorName := "add_session_metadata".

(** [New]: what it did, and what it returns. *)
Definition New (cfg : Cfg) : list Action * (Built + NewError) :=
  let beta := Beta "add_session_metadata processor is a beta feature." in
  match cfg_Unpack cfg defaultConfig with
  | inr err =>
      ([beta], inr (NErrorf_vw "fail to unpack the %v configuration: %w"
                      processorName err))
  | inl c =>
      match processdb_NewDB with
      | inr err =>
          ([beta; WithCancel; NewDB; Cancel],
           inr (NErrorf_w "failed to create DB: %w" err))
      | inl db =>
          let scrape :=
            if negb (String.eqb (Backend c) "kernel_tracing")
            then [ScrapeProcfs; Info "backfilled %d processes"]
            else [] in
          let done := [beta; WithCancel; NewDB] ++ scrape in
          let built p := inl (mkBuilt c db p (Backend c)) in
          if String.eqb (Backend c) "auto" then
            match kerneltracingprovider_NewProvider with
            | inr _ =>
                match procfsprovider_NewProvider db (PIDField c) with
                | inr err =>
                    (done ++ [NewKernelTracingProvider;
                              NewProcfsProvider (PIDField c); Cancel],
                     inr (NErrorf_w "failed to create provider: %w" err))
                | inl p =>
                    (done ++ [NewKernelTracingProvider;
                              NewProcfsProvider (PIDField c);
                              Info "backend=auto using procfs"],
                     built p)
                end
            | inl p =>
                (done ++ [NewKernelTracingProvider;
                          Info "backend=auto using kernel_tracing"],
                 built p)
            end
          else if String.eqb (Backend c) "procfs" then
            match procfsprovider_NewProvider db (PIDField c) with
            | inr err =>
                (done ++ [NewProcfsProvider (PIDField c); Cancel],
                 inr (NErrorf_w "failed to create procfs provider: %w" err))
            | inl p => (done ++ [NewProcfsProvider (PIDField c)], built p)
            end
          else if String.eqb (Backend c) "kernel_tracing" then
            match kerneltracingprovider_NewProvider with
            | inr err =>
                (done ++ [NewKernelTracingProvider; Cancel],
                 inr (NErrorf_w
                        "failed to create kernel_tracing provider: %w" err))
            | inl p => (done ++ [NewKernelTracingProvider], built p)
            end
          else
            (done ++ [Cancel], inr (NErrorf "unknown backend configuration"))
      end
  end.

(** [Close] *)
Definition Close (p : Built) : list Action * option E :=
  ([DBClose; Cancel], None).

(** How often [l] calls [cancel()]. *)
Fixpoint cancels (l : list Action) : nat :=
  match l with
  | [] => 0
  | Cancel :: l' => S (cancels l')
  | _ :: l' => cancels l'
  end.

(** Whether [l] has the action [a] of the kinds without arguments. *)
Definition did (a : Action) (l : list Action) : bool :=
  existsb (fun b =>
    match a, b with
    | WithCancel, WithCancel => true
    | NewDB, NewDB => true
    | ScrapeProcfs, ScrapeProcfs => true
    | NewKernelTracingProvider, NewKernelTracingProvider => true
    | Cancel, Cancel => true
    | DBClose, DBClose => true
    | _, _ => false
    end) l.

End NewClose.

End Sessionmd.

(** ** Test doubles for the processor *)

Module SessionFake.

Import Sessionmd.

(** [strconv.Atoi] on the few strings the examples use. *)
Definition atoi (s : string) : Z + unit :=
  if String.eqb s "-1" then inl (-1)%Z
  else if String.eqb s "4242" then inl 4242%Z
  else inr tt.

(** Events as lists of fields; nothing else in the world. *)
Definition Fields := list (string * Value).

Fixpoint lookup (key : string) (fields : Fields) : Value + string :=
  match fields with
  | [] => inr "key not found"
  | (k, v) :: rest => if String.eqb k key then inl v else lookup key rest
  end.

#[export] Instance enricher : Enricher unit Fields unit unit unit string := {
  ev_GetValue := fun ev key _ => lookup key ev;
  provider_SyncDB := fun _ _ w => (None, w);
  provider_GetProcess := fun _ w => (inl tt, w);
  db_GetProcess := fun _ w => (inl tt, w);
  ToMap := fun p => p;
  Fields_HasKey := fun ev key _ =>
    (match lookup key ev with inl _ => true | inr _ => false end, None);
  Fields_at := fun _ _ _ => IsM tt;
  ev_Clone := fun ev w => (ev, w);
  MergeFieldsDeep := fun _ _ _ w => (None, w);
  Fields_put := fun _ _ _ w => w;
  logger_Warnw := fun _ _ _ w => w
}.

Definition processor : Processor := mkProcessor "process.pid" "auto" "auto".

(** A machine where everything can be built; the configuration is the
    backend name. *)
#[export] Instance builder : Builder string unit unit string := {
  defaultConfig := mkConfig "auto" "process.pid";
  cfg_Unpack := fun backend c => inl (mkConfig backend (PIDField c));
  processdb_NewDB := inl tt;
  kerneltracingprovider_NewProvider := inl tt;
  procfsprovider_NewProvider := fun _ _ => inl tt
}.

End SessionFake.

(** * Properties *)

Section RunnerFacts.

Context {W : Type} `{EventLog W} `{Cursor W} `{Publisher W} `{Canceler W}.

Lemma closes_app l1 l2 : closes (l1 ++ l2) = closes l1 + closes l2.
Proof. unfold closes. now rewrite filter_app, length_app. Qed.

Lemma own_app l1 l2 : own (l1 ++ l2) = own l1 ++ own l2.
Proof. unfold own. apply filter_app. Qed.

Lemma statuses_app l1 l2 : statuses (l1 ++ l2) = statuses l1 ++ statuses l2.
Proof.
  induction l1 as [|c l1 IH]; simpl; [reflexivity|].
  destruct c; simpl; now rewrite ?IH.
Qed.

Lemma publishes_app l1 l2 :
  publishes (l1 ++ l2) = publishes l1 ++ publishes l2.
Proof.
  induction l1 as [|c l1 IH]; simpl; [reflexivity|].
  destruct c; simpl; now rewrite ?IH.
Qed.

Lemma opens_app l1 l2 : opens (l1 ++ l2) = opens l1 ++ opens l2.
Proof.
  induction l1 as [|c l1 IH]; simpl; [reflexivity|].
  destruct c; simpl; now rewrite ?IH.
Qed.

Lemma waits_app l1 l2 : waits (l1 ++ l2) = waits l1 ++ waits l2.
Proof.
  induction l1 as [|c l1 IH]; simpl; [reflexivity|].
  destruct c; simpl; now rewrite ?IH.
Qed.

Lemma fire_spec (st : St W) :
  cancelCtx_Err st = false ->
  exists l, calls (snd (fire st)) = calls st ++ l /\
    cancelCtx_Err (snd (fire st)) = true /\
    channelNotFoundErrDetected (snd (fire st)) = channelNotFoundErrDetected st /\
    world (snd (fire st)) = snd (api_Close (world st)) /\
    own l = [] /\ closes l = 1 /\ statuses l = [] /\ publishes l = [] /\
    opens l = [] /\ waits l = [].
Proof.
  intros Hc.
  unfold fire, bind, cancelCtx_done, set_cancelled, closeCallback, bind, call,
    emit, ret. rewrite Hc. simpl.
  destruct (api_Close (world st)) as [[e|] w'] eqn:Hclose; simpl.
  - exists [CClose (Some e); Log_Errorw closeLogMsg (Some e)].
    rewrite <- app_assoc. simpl. repeat split; reflexivity.
  - exists [CClose None]. repeat split; reflexivity.
Qed.

Lemma fire_done (st : St W) : cancelCtx_Err st = true -> fire st = (tt, st).
Proof.
  intros Hc. unfold fire, bind, cancelCtx_done, ret. now rewrite Hc.
Qed.

Lemma poll_spec (st : St W) : fst (poll st) = tt /\ Async st (snd (poll st)).
Proof.
  unfold poll, bind, gets.
  destruct (Cancelation_Err (world st)) eqn:Hsig; simpl.
  - destruct (cancelCtx_Err st) eqn:Hc.
    + rewrite (fire_done st Hc). split; [reflexivity|now apply async_none].
    + destruct (fire_spec st Hc) as (l & ? & ? & ? & ? & ? & ? & ? & ? & ? & ?).
      split; [now destruct (fire st) as [[] ?]|].
      now apply (async_fired _ _ l).
  - split; [reflexivity|now apply async_none].
Qed.

(** *** [close()] runs exactly once *)

Lemma keeps_ret {A} (a : A) : keeps W (ret a).
Proof. now intros st Hst. Qed.

Lemma keeps_bind {A B} (m : M A) (k : A -> M B) :
  keeps W m -> (forall a, keeps W (k a)) -> keeps W (bind m k).
Proof.
  intros Hm Hk st Hst. unfold bind.
  specialize (Hm st Hst). destruct (m st) as [a st1]. now apply Hk.
Qed.

Lemma keeps_emit (c : Call) :
  match c with CClose _ => False | _ => True end -> keeps W (emit c).
Proof.
  intros Hc st Hst. unfold closedOnce in *. simpl.
  rewrite closes_app, Hst.
  destruct c; try contradiction; unfold closes; simpl; apply Nat.add_0_r.
Qed.

Lemma keeps_gets {A} (f : W -> A) : keeps W (gets f).
Proof. now intros st Hst. Qed.

Lemma keeps_call {A} (f : W -> A * W) : keeps W (call f).
Proof.
  intros st Hst. unfold call. now destruct (f (world st)).
Qed.

Lemma keeps_poll : keeps W poll.
Proof.
  intros st Hst. destruct (poll_spec st) as [_ [->|l Hc _ Hc' _ _ Hl _ Hn]];
    [assumption|].
  unfold closedOnce in *. rewrite Hl, closes_app, Hst, Hc, Hc', Hn.
  reflexivity.
Qed.

Lemma keeps_fire : keeps W fire.
Proof.
  intros st Hst. destruct (cancelCtx_Err st) eqn:Hc.
  - now rewrite fire_done.
  - destruct (fire_spec st Hc) as (l & Hl & Hc' & _ & _ & _ & Hn & _).
    unfold closedOnce in *. now rewrite Hl, closes_app, Hst, Hc, Hc', Hn.
Qed.

Lemma keeps_flag (b : bool) : keeps W (set_detected b).
Proof. now intros st Hst. Qed.

Ltac keeps_step :=
  match goal with
  | |- keeps W (bind _ _) => apply keeps_bind; [|intros ?]
  | |- keeps W (ret _) => apply keeps_ret
  | |- keeps W (emit _) => apply keeps_emit; exact I
  | |- keeps W (UpdateStatus _ _) => apply keeps_emit; exact I
  | |- keeps W (gets _) => apply keeps_gets
  | |- keeps W (call _) => apply keeps_call
  | |- keeps W poll => apply keeps_poll
  | |- keeps W (set_detected _) => apply keeps_flag
  | |- keeps W cancelCtx_done => now intros ? ?
  | |- keeps W get_detected => now intros ? ?
  | |- keeps W (if ?b then _ else _) => destruct b
  | |- keeps W (match ?x with Some _ => _ | None => _ end) => destruct x
  | |- keeps W (match ?x with [] => _ | _ :: _ => _ end) => destruct x
  | |- keeps W (let _ := _ in _) => cbv zeta
  end.

Lemma keeps_callOpen cp : keeps W (callOpen cp).
Proof. unfold callOpen. repeat keeps_step. Qed.

Lemma keeps_callRead : keeps W callRead.
Proof. unfold callRead. repeat keeps_step. Qed.

Lemma keeps_callReset : keeps W callReset.
Proof. unfold callReset. repeat keeps_step. Qed.

Lemma keeps_callPublish ev pos : keeps W (callPublish ev pos).
Proof. unfold callPublish. repeat keeps_step. Qed.

Lemma keeps_timed_Wait d : keeps W (timed_Wait d).
Proof. unfold timed_Wait. repeat keeps_step. Qed.

Lemma keeps_initCheckpoint : keeps W initCheckpoint.
Proof. unfold initCheckpoint. repeat keeps_step. Qed.

Lemma keeps_resetHandle : keeps W resetHandle.
Proof.
  unfold resetHandle. apply keeps_bind; [apply keeps_callReset|intros ?].
  repeat keeps_step.
Qed.

Lemma keeps_publishRecords records : keeps W (publishRecords records).
Proof.
  induction records as [|record rest IH]; simpl; [apply keeps_ret|].
  apply keeps_bind; [apply keeps_callPublish|intros [e|]]; [|exact IH].
  repeat keeps_step.
Qed.

Lemma keeps_opening : keeps W opening.
Proof.
  unfold opening.
  repeat first
    [ apply keeps_initCheckpoint | apply keeps_callOpen
    | apply keeps_timed_Wait | keeps_step ].
Qed.

Lemma keeps_reading : keeps W reading.
Proof.
  unfold reading.
  repeat first
    [ apply keeps_callRead | apply keeps_resetHandle | apply keeps_timed_Wait
    | apply keeps_publishRecords | keeps_step ].
Qed.

Lemma closedOnce_step (c : Config W) :
  closedOnce (stateOf c) -> closedOnce (stateOf (step c)).
Proof.
  destruct c as [[|] st|e st]; simpl; intros Hst; [| |assumption].
  - pose proof (keeps_opening st Hst) as Hk.
    destruct (opening st) as [[ph|e] st']; exact Hk.
  - pose proof (keeps_reading st Hst) as Hk.
    destruct (reading st) as [[ph|e] st']; exact Hk.
Qed.

Lemma closedOnce_steps n (c : Config W) :
  closedOnce (stateOf c) -> closedOnce (stateOf (steps n c)).
Proof.
  revert c. induction n as [|n IH]; intros c Hc; simpl; [assumption|].
  apply IH. now apply closedOnce_step.
Qed.

Lemma closedOnce_start (w : W) : closedOnce (stateOf (start w)).
Proof.
  unfold start. simpl.
  assert (Hk : keeps W (bind poll (fun _ => bind (set_detected false)
            (fun _ => UpdateStatus Running (Lit ""))))) by repeat keeps_step.
  apply Hk. reflexivity.
Qed.

(** Whatever [Run] returns, the call log then holds exactly one [close()]. *)
Lemma Run_closes_once fuel (w : W) err st :
  Run fuel w = Some (err, st) -> closes (calls st) = 1.
Proof.
  unfold Run, runLoop. intros HR.
  pose proof (closedOnce_steps fuel (start w) (closedOnce_start w)) as Hinv.
  destruct (steps fuel (start w)) as [ph st0|e st0]; [discriminate|].
  injection HR as _ <-. simpl in Hinv.
  pose proof (keeps_fire st0 Hinv) as Hf. unfold cancelFn.
  unfold closedOnce in Hf.
  destruct (cancelCtx_Err st0) eqn:Hc.
  - rewrite fire_done in * by assumption. simpl in *. now rewrite Hc in Hf.
  - destruct (fire_spec st0 Hc) as (l & _ & Hc' & _). now rewrite Hc' in Hf.
Qed.

(** *** What each collaborator call leaves in the state *)

Lemma own_statuses l : statuses (own l) = statuses l.
Proof.
  induction l as [|c l IH]; [reflexivity|].
  destruct c; simpl; rewrite <- ?IH; try reflexivity.
  unfold own. simpl. now destruct (String.eqb msg closeLogMsg).
Qed.

Lemma own_publishes l : publishes (own l) = publishes l.
Proof.
  induction l as [|c l IH]; [reflexivity|].
  destruct c; simpl; rewrite <- ?IH; try reflexivity.
  unfold own. simpl. now destruct (String.eqb msg closeLogMsg).
Qed.

Lemma own_opens l : opens (own l) = opens l.
Proof.
  induction l as [|c l IH]; [reflexivity|].
  destruct c; simpl; rewrite <- ?IH; try reflexivity.
  unfold own. simpl. now destruct (String.eqb msg closeLogMsg).
Qed.

Lemma own_waits l : waits (own l) = waits l.
Proof.
  induction l as [|c l IH]; [reflexivity|].
  destruct c; simpl; rewrite <- ?IH; try reflexivity.
  unfold own. simpl. now destruct (String.eqb msg closeLogMsg).
Qed.

Lemma poll_answered (st : St W) (c : Call) (w : W) :
  answered st c w
    (snd (poll (mkSt w (calls st ++ [c]) (cancelCtx_Err st)
                     (channelNotFoundErrDetected st)))).
Proof.
  set (mid := mkSt w (calls st ++ [c]) (cancelCtx_Err st)
                   (channelNotFoundErrDetected st)).
  unfold poll, bind, gets. change (world mid) with w.
  destruct (Cancelation_Err w) eqn:Hsig.
  - destruct (cancelCtx_Err st) eqn:Hc.
    + rewrite fire_done by reflexivity. exists []. simpl.
      repeat split; trivial; try discriminate; congruence.
    + destruct (fire_spec mid eq_refl) as (l & Hl & Hc' & Hd & _ & Hown & _).
      exists l. rewrite Hl, Hd, Hc'. simpl. rewrite <- app_assoc. simpl.
      repeat split; trivial; try discriminate; congruence.
  - exists []. simpl. repeat split; trivial; try discriminate; congruence.
Qed.

Lemma callOpen_spec cp (st : St W) err st' :
  callOpen cp st = (err, st') ->
  err = fst (api_Open cp (world st)) /\
  answered st (COpen cp err) (snd (api_Open cp (world st))) st'.
Proof.
  unfold callOpen, bind, call, emit, ret.
  destruct (api_Open cp (world st)) as [e w] eqn:Ho. simpl.
  pose proof (poll_answered st (COpen cp e) w) as Hp.
  destruct (poll _) as [[] st2]. intros [= <- <-]. now split.
Qed.

Lemma callRead_spec (st : St W) r st' :
  callRead st = (r, st') ->
  r = fst (api_Read (world st)) /\
  answered st (CRead (fst r) (snd r)) (snd (api_Read (world st))) st'.
Proof.
  unfold callRead, bind, call, emit, ret.
  destruct (api_Read (world st)) as [e w] eqn:Ho. simpl.
  pose proof (poll_answered st (CRead (fst e) (snd e)) w) as Hp.
  destruct (poll _) as [[] st2]. intros [= <- <-]. now split.
Qed.

Lemma callReset_spec (st : St W) err st' :
  callReset st = (err, st') ->
  err = fst (api_Reset (world st)) /\
  answered st (CReset err) (snd (api_Reset (world st))) st'.
Proof.
  unfold callReset, bind, call, emit, ret.
  destruct (api_Reset (world st)) as [e w] eqn:Ho. simpl.
  pose proof (poll_answered st (CReset e) w) as Hp.
  destruct (poll _) as [[] st2]. intros [= <- <-]. now split.
Qed.

Lemma callPublish_spec ev pos (st : St W) err st' :
  callPublish ev pos st = (err, st') ->
  err = fst (publisher_Publish ev pos (world st)) /\
  answered st (CPublish ev pos err)
    (snd (publisher_Publish ev pos (world st))) st'.
Proof.
  unfold callPublish, bind, call, emit, ret.
  destruct (publisher_Publish ev pos (world st)) as [e w] eqn:Ho. simpl.
  pose proof (poll_answered st (CPublish ev pos e) w) as Hp.
  destruct (poll _) as [[] st2]. intros [= <- <-]. now split.
Qed.

(** After [timed.Wait]: the wait is in the log; time has passed unless
    [cancelCtx] was done already. *)
Lemma timed_Wait_spec d (st : St W) :
  exists l, calls (snd (timed_Wait d st)) = calls st ++ CWait d :: l /\
    own l = [] /\
    channelNotFoundErrDetected (snd (timed_Wait d st)) =
      channelNotFoundErrDetected st /\
    (cancelCtx_Err st = true -> snd (timed_Wait d st) =
       mkSt (world st) (calls st ++ [CWait d]) true
            (channelNotFoundErrDetected st)) /\
    (cancelCtx_Err (snd (timed_Wait d st)) = false ->
       world (snd (timed_Wait d st)) = elapse d (world st) /\ l = [] /\
       Cancelation_Err (elapse d (world st)) = false) /\
    (cancelCtx_Err st = false -> Cancelation_Err (elapse d (world st)) = false ->
       cancelCtx_Err (snd (timed_Wait d st)) = false).
Proof.
  unfold timed_Wait, bind, emit, cancelCtx_done, call, ret. simpl.
  destruct (cancelCtx_Err st) eqn:Hc.
  - exists []. simpl. repeat split; trivial; discriminate.
  - pose proof (poll_answered st (CWait d) (elapse d (world st))) as Hp.
    rewrite Hc in Hp.
    destruct (poll _) as [[] st2]. simpl in *.
    destruct Hp as (l & Hl & Hown & Hd & _ & Hw & _ & Hq).
    exists l. repeat split; trivial; try apply Hw; trivial; try discriminate.
    intros _ Hn. now rewrite Hq.
Qed.

Lemma initCheckpoint_spec (st : St W) :
  world (snd (initCheckpoint st)) = world st /\
  cancelCtx_Err (snd (initCheckpoint st)) = cancelCtx_Err st /\
  channelNotFoundErrDetected (snd (initCheckpoint st)) =
    channelNotFoundErrDetected st /\
  exists l, calls (snd (initCheckpoint st)) = calls st ++ l /\
    statuses l = [] /\ opens l = [] /\ waits l = [] /\ publishes l = [].
Proof.
  unfold initCheckpoint, bind, gets, emit, ret.
  destruct (cursor_IsNew (world st)); simpl.
  - repeat split. exists []. now rewrite app_nil_r.
  - destruct (cursor_Unpack zeroState (world st)) as [cp [e|]]; simpl;
      repeat split; eexists; rewrite <- ?app_assoc; simpl;
      (split; [reflexivity|now repeat split]).
Qed.

(** *** From one pass to [Run] *)

Lemma steps_Halted n err (st : St W) : steps n (Halted err st) = Halted err st.
Proof. induction n as [|n IH]; simpl; [reflexivity|exact IH]. Qed.

Lemma steps_add n m (c : Config W) : steps (n + m) c = steps m (steps n c).
Proof.
  revert c. induction n as [|n IH]; intros c; simpl; [reflexivity|apply IH].
Qed.

(** A pass that returns makes [Run] return the same error, for every fuel
    that reaches it. *)
Lemma Run_returns (w : W) k ph st err st' :
  steps k (start w) = At ph st ->
  step (At ph st) = Halted err st' ->
  forall fuel, k < fuel -> Run fuel w = Some (err, snd (cancelFn st')).
Proof.
  intros Hk Hs fuel Hlt. unfold Run, runLoop.
  replace fuel with (k + S (fuel - S k)) by lia.
  rewrite steps_add, Hk. cbn [steps]. rewrite Hs, steps_Halted. reflexivity.
Qed.

Ltac norm_calls := rewrite <- ?app_assoc; cbn [app].

(** *** One pass through the head of [runLoop] *)

Lemma opening_spec (st : St W) cp st0 openErr st1 :
  cancelCtx_Err st = false ->
  initCheckpoint st = (cp, st0) ->
  callOpen cp st0 = (openErr, st1) ->
  exists st' l,
    opening st =
      (openOutcome (api_IsFile (world st1)) (api_Channel (world st1)) openErr,
       st') /\
    calls st' = calls st1 ++ CUpdateStatus Running (Lit "") :: l /\
    own l = afterOpen (channelNotFoundErrDetected st)
              (api_IsFile (world st1)) (api_Channel (world st1)) openErr /\
    channelNotFoundErrDetected st' =
      flagAfterOpen (channelNotFoundErrDetected st)
        (api_IsFile (world st1)) openErr /\
    (cancelCtx_Err st1 = true -> cancelCtx_Err st' = true) /\
    (openErr = None ->
       world st' = world st1 /\ cancelCtx_Err st' = cancelCtx_Err st1) /\
    (IsRecoverable openErr = true -> st' = retryState st1 openErr) /\
    (IsRecoverable openErr = false ->
     negb (api_IsFile (world st1)) && IsChannelNotFound openErr = false ->
     openErr <> None ->
     l = [CUpdateStatus Degraded
            (Sprintf openFailedFormat
               [AStr (api_Channel (world st1)); AErr openErr])]).
Proof.
  intros Hc Hinit Hopen.
  pose proof (initCheckpoint_spec st) as (_ & _ & Hd0 & _).
  rewrite Hinit in Hd0. cbn [snd] in Hd0.
  destruct (callOpen_spec _ _ _ _ Hopen) as [_ (l1 & _ & _ & Hd1 & _)].
  unfold opening, bind, cancelCtx_done. rewrite Hc, Hinit, Hopen.
  unfold UpdateStatus, emit at 1. cbn [fst snd].
  unfold afterOpen, openOutcome, flagAfterOpen.
  destruct (IsRecoverable openErr) eqn:Hrec.
  - unfold emit at 1.
    match goal with |- context [timed_Wait ?d ?s] =>
      assert (Hretry : retryState st1 openErr = snd (timed_Wait d s))
        by reflexivity;
      destruct (timed_Wait_spec d s) as (lw & Hlw & Hown & Hdw & Hcw & _);
      destruct (timed_Wait d s) as [[] st'] end.
    cbn [fst snd calls cancelCtx_Err channelNotFoundErrDetected world] in *.
    exists st', (Log_Errorw recoverableOpenMsg openErr
                 :: CWait (5 * Second)%Z :: lw).
    split; [reflexivity|]. rewrite Hlw. norm_calls.
    split; [reflexivity|]. split; [unfold own in *; simpl; now rewrite Hown|].
    split; [congruence|].
    split; [|split; [|split]]; [| |intros _; now rewrite Hretry|discriminate].
    + intros Hc1. rewrite (Hcw Hc1). reflexivity.
    + intros ->. discriminate.
  - unfold gets at 1. cbn [world fst snd].
    destruct (negb (api_IsFile (world st1)) && IsChannelNotFound openErr)
      eqn:Hchan.
    + unfold get_detected, set_detected.
      cbn [fst snd channelNotFoundErrDetected].
      assert (Hd : channelNotFoundErrDetected st1 =
                   channelNotFoundErrDetected st) by congruence.
      rewrite Hd.
      destruct (channelNotFoundErrDetected st) eqn:Hflag; cbn [negb];
        unfold emit at 1 2; cbn [fst snd];
        match goal with |- context [timed_Wait ?d ?s] =>
          destruct (timed_Wait_spec d s) as (lw & Hlw & Hown & Hdw & Hcw & _);
          destruct (timed_Wait d s) as [[] st'] end;
        cbn [fst snd calls cancelCtx_Err channelNotFoundErrDetected world] in *;
        (eexists st', (_ :: _ :: CWait (5 * Second)%Z :: lw);
         split; [reflexivity|]; rewrite Hlw; norm_calls;
         split; [reflexivity|];
         split; [unfold own in *; simpl; now rewrite Hown|];
         split; [assumption|]; split; [|split; [|split]];
         [intros Hc1; rewrite (Hcw Hc1); reflexivity
         |intros ->; rewrite andb_false_r in Hchan; discriminate
         |discriminate|discriminate]).
    + destruct openErr as [e|].
      * unfold gets, emit, ret. cbn [fst snd].
        eexists _, [_]. split; [reflexivity|]. cbn [calls]. norm_calls.
        split; [reflexivity|]. split; [reflexivity|].
        split; [cbn; congruence|]. split; [trivial|].
        split; [discriminate|]. split; [discriminate|reflexivity].
      * unfold set_detected, emit, ret. cbn [fst snd].
        eexists _, [_]. split; [reflexivity|]. cbn [calls]. norm_calls.
        split; [reflexivity|]. split; [reflexivity|].
        split; [reflexivity|]. split; [trivial|].
        split; [now split|]. split; [discriminate|]. now intros _ _ [].
Qed.

(** *** One pass through the read loop *)

Lemma resetHandle_spec (st : St W) :
  exists st' l,
    resetHandle st = (tt, st') /\
    calls st' = calls st ++ l /\
    own l = afterReset (fst (api_Reset (world st))) /\
    channelNotFoundErrDetected st' = channelNotFoundErrDetected st /\
    (cancelCtx_Err st = true -> cancelCtx_Err st' = true).
Proof.
  unfold resetHandle, bind.
  destruct (callReset st) as [resetErr st1] eqn:Hreset.
  destruct (callReset_spec _ _ _ Hreset) as [<- (l & Hl & Hown & Hd & Hc & _)].
  unfold afterReset.
  destruct resetErr as [e|].
  - unfold UpdateStatus, emit, ret. cbn [fst snd].
    eexists _, (CReset (Some e) :: l ++ [_; _]). split; [reflexivity|].
    cbn [calls cancelCtx_Err channelNotFoundErrDetected]. rewrite Hl.
    norm_calls. split; [reflexivity|].
    split; [|now split].
    change (own (CReset (Some e) :: l ++ ?t)) with
      (CReset (Some e) :: own (l ++ t)).
    now rewrite own_app, Hown.
  - unfold ret. exists st1, (CReset None :: l). split; [reflexivity|].
    split; [exact Hl|]. split; [|now split].
    change (own (CReset None :: l)) with (CReset None :: own l).
    now rewrite Hown.
Qed.

(** A read error that is Recoverable, or EventChannelNotFound on a source
    that is not a file: log, reset, back to the head of [runLoop]. *)
Lemma reading_retry_spec (st : St W) records err st1 :
  cancelCtx_Err st = false ->
  callRead st = ((records, err), st1) ->
  IsRecoverable err = true \/
    negb (api_IsFile (world st1)) && IsChannelNotFound err = true ->
  exists st' l,
    reading st = (Goto Opening, st') /\
    calls st' = calls st1 ++ l /\
    own l =
      Log_Errorw (if IsRecoverable err then recoverableReadMsg
                  else channelNotFoundReadMsg) err
      :: afterReset (fst (api_Reset (world st1))) /\
    channelNotFoundErrDetected st' = channelNotFoundErrDetected st.
Proof.
  intros Hc Hread Hkind.
  destruct (callRead_spec _ _ _ Hread) as [_ (l0 & _ & _ & Hd & _)].
  unfold reading, bind, cancelCtx_done. rewrite Hc, Hread. cbn [fst snd].
  assert (Hgo : forall msg, String.eqb msg closeLogMsg = false ->
    exists st' l,
      (let (_, st2) := emit (Log_Errorw msg err) st1 in
       let (_, st3) := resetHandle st2 in ret (Goto Opening) st3) =
        (Goto Opening, st') /\
      calls st' = calls st1 ++ l /\
      own l = Log_Errorw msg err :: afterReset (fst (api_Reset (world st1))) /\
      channelNotFoundErrDetected st' = channelNotFoundErrDetected st1).
  { intros msg Hmsg. unfold emit at 1.
    match goal with |- context [resetHandle ?s] =>
      destruct (resetHandle_spec s) as (st' & l & Hr & Hl & Hown & Hd' & _)
    end.
    rewrite Hr. cbn [calls world channelNotFoundErrDetected] in *.
    exists st', (Log_Errorw msg err :: l). unfold ret.
    split; [reflexivity|]. rewrite Hl. norm_calls. split; [reflexivity|].
    split; [|assumption].
    unfold own in *. cbn [filter asynchronous]. now rewrite Hmsg, Hown. }
  destruct (IsRecoverable err) eqn:Hrec.
  - destruct (Hgo recoverableReadMsg eq_refl) as (st' & l & He & Hl & Hown & Hd').
    exists st', l. split; [exact He|]. repeat split; trivial. congruence.
  - destruct Hkind as [Hk|Hk]; [discriminate|].
    unfold gets. rewrite Hk.
    destruct (Hgo channelNotFoundReadMsg eq_refl)
      as (st' & l & He & Hl & Hown & Hd').
    exists st', l. split; [exact He|]. repeat split; trivial. congruence.
Qed.

(** *** Publishing a batch *)

Lemma publishRecords_spec records (st : St W) :
  exists perr st' l,
    publishRecords records st = (perr, st') /\
    calls st' = calls st ++ l /\
    (perr = None -> own l = map published records) /\
    (forall e, perr = Some e ->
       exists sent record rest,
         records = sent ++ record :: rest /\
         own l = map published sent ++
                 [CPublish (ToEvent record) (Offset record) (Some e);
                  publishFailed (Some e)] /\
         exists l0, l = l0 ++ [publishFailed (Some e)]).
Proof.
  revert st. induction records as [|record rest IH]; intros st.
  - exists None, st, []. cbn. rewrite app_nil_r.
    repeat split; trivial. discriminate.
  - cbn [publishRecords]. unfold bind at 1.
    destruct (callPublish (ToEvent record) (Offset record) st)
      as [err st1] eqn:Hpub.
    destruct (callPublish_spec _ _ _ _ _ Hpub) as [_ (l1 & Hl1 & Hown1 & _)].
    destruct err as [e|].
    + unfold UpdateStatus, emit, bind, ret. cbn [fst snd].
      eexists (Some e), _, (_ :: l1 ++ [_]). split; [reflexivity|].
      cbn [calls]. rewrite Hl1. norm_calls. split; [reflexivity|].
      split; [discriminate|]. intros e' [= <-].
      exists [], record, rest. split; [reflexivity|]. split.
      * unfold own in *. cbn [filter asynchronous negb map app].
        rewrite filter_app, Hown1. reflexivity.
      * now exists (CPublish (ToEvent record) (Offset record) (Some e) :: l1).
    + destruct (IH st1) as (perr & st' & l & Hp & Hl & Hok & Hfail).
      exists perr, st', (published record :: l1 ++ l). split; [exact Hp|].
      rewrite Hl, Hl1. norm_calls. split; [reflexivity|].
      assert (Hown : own (published record :: l1 ++ l) =
                     published record :: own l).
      { unfold own in *. cbn [published filter asynchronous negb].
        now rewrite filter_app, Hown1. }
      rewrite Hown. split.
      * intros Hnone. now rewrite (Hok Hnone).
      * intros e He.
        destruct (Hfail e He) as (sent & r & rest' & -> & -> & l0 & ->).
        exists (record :: sent), r, rest'. split; [reflexivity|].
        split; [reflexivity|].
        exists (published record :: l1 ++ l0). cbn [app].
        now rewrite <- app_assoc.
Qed.

(** *** The flag [channelNotFoundErrDetected] *)

Lemma steady_bind {A B} (m : M A) (k : A -> M B) :
  steady W m -> (forall a, steady W (k a)) -> steady W (bind m k).
Proof.
  intros Hm Hk st. unfold bind. specialize (Hm st).
  destruct (m st) as [a st1]. cbn [snd] in Hm. now rewrite Hk.
Qed.

Lemma steady_poll : steady W poll.
Proof.
  intros st. destruct (poll_spec st) as [_ [->|l _ _ _ Hd _ _ _ _ _ _ _ _]];
    [reflexivity|exact Hd].
Qed.

Lemma steady_call {A} (f : W -> A * W) : steady W (call f).
Proof. intros st. unfold call. now destruct (f (world st)). Qed.

Ltac steady_step :=
  match goal with
  | |- steady W (bind _ _) => apply steady_bind; [|intros ?]
  | |- steady W poll => apply steady_poll
  | |- steady W (call _) => apply steady_call
  | |- steady W (if ?b then _ else _) => destruct b
  | |- steady W (match ?x with Some _ => _ | None => _ end) => destruct x
  | |- steady W (match ?x with [] => _ | _ :: _ => _ end) => destruct x
  | |- steady W (let _ := _ in _) => cbv zeta
  | |- steady W _ => now intros ?
  end.

Lemma steady_callRead : steady W callRead.
Proof. unfold callRead. repeat steady_step. Qed.

Lemma steady_callReset : steady W callReset.
Proof. unfold callReset. repeat steady_step. Qed.

Lemma steady_callPublish ev pos : steady W (callPublish ev pos).
Proof. unfold callPublish. repeat steady_step. Qed.

Lemma steady_timed_Wait d : steady W (timed_Wait d).
Proof. unfold timed_Wait. repeat steady_step. Qed.

Lemma steady_publishRecords records : steady W (publishRecords records).
Proof.
  induction records as [|record rest IH]; cbn [publishRecords];
    [now intros ?|].
  apply steady_bind; [apply steady_callPublish|intros [e|]]; [|exact IH].
  unfold UpdateStatus. repeat steady_step.
Qed.

Lemma steady_resetHandle : steady W resetHandle.
Proof.
  unfold resetHandle, UpdateStatus.
  apply steady_bind; [apply steady_callReset|intros ?]. repeat steady_step.
Qed.

(** The read loop never touches the flag. *)
Lemma steady_reading : steady W reading.
Proof.
  unfold reading, UpdateStatus.
  repeat first
    [ apply steady_callRead | apply steady_resetHandle
    | apply steady_timed_Wait | apply steady_publishRecords | steady_step ].
Qed.

(** *** What an opening pass does when [cancelCtx] is not done *)

Lemma afterOpen_opens detected isFile channel openErr :
  opens (afterOpen detected isFile channel openErr) = [].
Proof.
  unfold afterOpen.
  destruct (IsRecoverable openErr); [reflexivity|].
  destruct (negb isFile && IsChannelNotFound openErr);
    [now destruct detected|now destruct openErr].
Qed.

Lemma opening_calls_open (st : St W) :
  cancelCtx_Err st = false ->
  exists l openErr,
    calls (stateOf (step (At Opening st))) = calls st ++ l /\
    opens l = [(fst (initCheckpoint st), openErr)].
Proof.
  intros Hc.
  destruct (initCheckpoint st) as [cp st0] eqn:Hinit.
  destruct (callOpen cp st0) as [openErr st1] eqn:Hopen.
  destruct (opening_spec st cp st0 openErr st1 Hc Hinit Hopen)
    as (st' & l2 & Hop & Hl2 & Hown2 & _).
  destruct (callOpen_spec _ _ _ _ Hopen) as [_ (l1 & Hl1 & Hown1 & _)].
  pose proof (initCheckpoint_spec st) as (_ & _ & _ & l0 & Hl0 & _ & Ho0 & _).
  rewrite Hinit in Hl0. cbn [snd] in Hl0.
  exists (l0 ++ COpen cp openErr :: l1 ++ CUpdateStatus Running (Lit "") :: l2),
    openErr.
  split.
  - unfold step. rewrite Hop.
    assert (Hcalls : calls st' = calls st ++ l0 ++ COpen cp openErr
                       :: l1 ++ CUpdateStatus Running (Lit "") :: l2).
    { rewrite Hl2, Hl1, Hl0. now norm_calls. }
    now destruct (openOutcome _ _ _).
  - rewrite opens_app, Ho0. cbn [opens app fst].
    rewrite opens_app. cbn [opens].
    rewrite <- (own_opens l1), Hown1, <- (own_opens l2), Hown2,
      afterOpen_opens. reflexivity.
Qed.

Lemma opening_cancelled (st : St W) :
  cancelCtx_Err st = true -> step (At Opening st) = Halted None st.
Proof.
  intros Hc. unfold step, opening, bind, cancelCtx_done. now rewrite Hc.
Qed.

Lemma reading_cancelled (st : St W) :
  cancelCtx_Err st = true -> step (At Reading st) = At Opening st.
Proof.
  intros Hc. unfold step, reading, bind, cancelCtx_done. now rewrite Hc.
Qed.

(** ** Publishing *)

(** C2. A non-empty batch read without error is published record by record,
    in batch order, each with its own position; the first publish error stops
    the batch, writes status Degraded, and is what [Run] returns. *)
Theorem batch_published_in_order (w : W) k st records st1 :
  steps k (start w) = At Reading st ->
  cancelCtx_Err st = false ->
  callRead st = ((records, None), st1) ->
  records <> [] ->
  exists perr st' l,
    publishRecords records st1 = (perr, st') /\
    calls st' = calls st1 ++ l /\
    (perr = None ->
       step (At Reading st) = At Reading st' /\
       own l = map published records) /\
    (forall e, perr = Some e ->
       step (At Reading st) = Halted (Some e) st' /\
       (forall fuel, k < fuel ->
          Run fuel w = Some (Some e, snd (cancelFn st'))) /\
       exists sent record rest,
         records = sent ++ record :: rest /\
         own l = map published sent ++
                 [CPublish (ToEvent record) (Offset record) (Some e);
                  CUpdateStatus Degraded
                    (Sprintf "Error occurred while publishing from winlog: %v"
                       [AErr (Some e)])]).
Proof.
  intros Hk Hc Hread Hne.
  destruct (publishRecords_spec records st1)
    as (perr & st' & l & Hp & Hl & Hok & Hfail).
  assert (Hstep : step (At Reading st) =
                  match perr with
                  | Some _ => Halted perr st'
                  | None => At Reading st'
                  end).
  { unfold step, reading, bind, cancelCtx_done. rewrite Hc, Hread.
    cbn [fst snd IsRecoverable IsChannelNotFound]. unfold gets.
    rewrite andb_false_r.
    destruct records as [|r rs]; [contradiction|].
    rewrite Hp. now destruct perr. }
  exists perr, st', l. split; [exact Hp|]. split; [exact Hl|]. split.
  - intros ->. split; [exact Hstep|now apply Hok].
  - intros e ->. split; [exact Hstep|]. split.
    + now apply (Run_returns w k Reading st).
    + destruct (Hfail e eq_refl) as (sent & r & rest & Hrec & Hown & _).
      now exists sent, r, rest.
Qed.

(** ** Terminal read errors *)

(** C3. A read error that is neither Recoverable nor a (non-file)
    EventChannelNotFound ends the run: on EndOfStream [Run] returns nil and
    writes no status; otherwise, when the cancellation signal has been
    observed, [Run] returns nil; otherwise it sets status Degraded with the
    reading-error message and returns that error. *)
Theorem read_error_is_terminal (w : W) k st records e st1 :
  steps k (start w) = At Reading st ->
  cancelCtx_Err st = false ->
  callRead st = ((records, Some e), st1) ->
  IsRecoverable (Some e) = false ->
  negb (api_IsFile (world st1)) && IsChannelNotFound (Some e) = false ->
  exists err st' l,
    step (At Reading st) = Halted err st' /\
    (forall fuel, k < fuel -> Run fuel w = Some (err, snd (cancelFn st'))) /\
    calls st' = calls st1 ++ l /\
    (Is_EOF e = true ->
       err = None /\
       l = [Log_Debugw "End of Winlog event stream reached" (Some e)] /\
       lastStatus (calls st') = lastStatus (calls st)) /\
    (Is_EOF e = false -> cancelCtx_Err st1 = true ->
       err = None /\ l = [] /\
       lastStatus (calls st') = lastStatus (calls st)) /\
    (Is_EOF e = false -> cancelCtx_Err st1 = false ->
       err = Some e /\
       l = [Log_Errorw eventLogReadingError (Some e);
            CUpdateStatus Degraded
              (Sprintf "%s: %v" [AStr eventLogReadingError; AErr (Some e)])]).
Proof.
  intros Hk Hc Hread Hrec Hchan.
  destruct (callRead_spec _ _ _ Hread) as [_ (l0 & Hl0 & Hown0 & _)].
  assert (Hquiet : lastStatus (calls st1) = lastStatus (calls st)).
  { unfold lastStatus. rewrite Hl0, statuses_app. simpl.
    rewrite <- (own_statuses l0), Hown0. simpl. now rewrite app_nil_r. }
  assert (Hstep : exists err st' l,
    step (At Reading st) = Halted err st' /\ calls st' = calls st1 ++ l /\
    (Is_EOF e = true ->
       err = None /\
       l = [Log_Debugw "End of Winlog event stream reached" (Some e)] /\
       lastStatus (calls st') = lastStatus (calls st)) /\
    (Is_EOF e = false -> cancelCtx_Err st1 = true ->
       err = None /\ l = [] /\
       lastStatus (calls st') = lastStatus (calls st)) /\
    (Is_EOF e = false -> cancelCtx_Err st1 = false ->
       err = Some e /\
       l = [Log_Errorw eventLogReadingError (Some e);
            CUpdateStatus Degraded
              (Sprintf "%s: %v" [AStr eventLogReadingError; AErr (Some e)])])).
  { unfold step, reading, bind, cancelCtx_done. rewrite Hc, Hread.
    cbn [fst snd]. rewrite Hrec. unfold gets. rewrite Hchan.
    destruct (Is_EOF e) eqn:Heof.
    - unfold emit, ret. do 3 eexists. split; [reflexivity|].
      cbn [calls]. split; [reflexivity|].
      repeat split; try discriminate.
      unfold lastStatus. rewrite statuses_app. simpl. rewrite app_nil_r.
      exact Hquiet.
    - destruct (cancelCtx_Err st1) eqn:Hc1.
      + unfold ret. exists None, st1, []. split; [reflexivity|].
        rewrite app_nil_r. repeat split; try discriminate. exact Hquiet.
      + unfold UpdateStatus, emit, ret. do 3 eexists. split; [reflexivity|].
        cbn [calls]. norm_calls. split; [reflexivity|].
        repeat split; discriminate. }
  destruct Hstep as (err & st' & l & Hs & Hrest).
  exists err, st', l. split; [exact Hs|]. split; [|exact Hrest].
  now apply (Run_returns w k Reading st).
Qed.

(** ** Recoverable read errors *)

(** C5. When [read()] returns a Recoverable error the runner calls
    [reset()]; a failing reset sets status Degraded with the reset-failure
    message; either way the pass ends at the head of [runLoop], and the next
    pass calls [open()] again (unless the cancellation signal has been
    observed by then, when it returns nil). *)
Theorem recoverable_read_resets_and_reopens (st : St W) records err st1 :
  cancelCtx_Err st = false ->
  callRead st = ((records, err), st1) ->
  IsRecoverable err = true ->
  exists st' l,
    step (At Reading st) = At Opening st' /\
    calls st' = calls st1 ++ l /\
    own l =
      [Log_Errorw
         "Encountered recoverable error when reading from Windows Event Log"
         err;
       CReset (fst (api_Reset (world st1)))] ++
      match fst (api_Reset (world st1)) with
      | Some resetErr =>
          [Log_Errorw resetError (Some resetErr);
           CUpdateStatus Degraded
             (Sprintf "%s: %v" [AStr resetError; AErr (Some resetErr)])]
      | None => []
      end /\
    (cancelCtx_Err st' = false ->
       exists l' openErr,
         calls (stateOf (step (At Opening st'))) = calls st' ++ l' /\
         opens l' = [(fst (initCheckpoint st'), openErr)]) /\
    (cancelCtx_Err st' = true -> step (At Opening st') = Halted None st').
Proof.
  intros Hc Hread Hrec.
  destruct (reading_retry_spec st records err st1 Hc Hread (or_introl Hrec))
    as (st' & l & Hr & Hl & Hown & _).
  exists st', l. unfold step. rewrite Hr. split; [reflexivity|].
  split; [exact Hl|]. split.
  - rewrite Hown, Hrec. unfold afterReset.
    now destruct (fst (api_Reset (world st1))).
  - split; [apply opening_calls_open|apply opening_cancelled].
Qed.

(** C10. A read-loop pass that ends in a reset (after a Recoverable error,
    or EventChannelNotFound on a source that is not a file) writes no status
    when the reset succeeds, so the status sink keeps W its last value; the only
    status written on this path is the Degraded of a failed reset. *)
Theorem reset_path_status_frame (st : St W) records err st1 :
  cancelCtx_Err st = false ->
  callRead st = ((records, err), st1) ->
  IsRecoverable err = true \/
    negb (api_IsFile (world st1)) && IsChannelNotFound err = true ->
  exists st' l,
    step (At Reading st) = At Opening st' /\
    calls st' = calls st ++ l /\
    statuses l =
      match fst (api_Reset (world st1)) with
      | Some resetErr =>
          [(Degraded, Sprintf "%s: %v" [AStr resetError; AErr (Some resetErr)])]
      | None => []
      end /\
    (fst (api_Reset (world st1)) = None ->
       lastStatus (calls st') = lastStatus (calls st)).
Proof.
  intros Hc Hread Hkind.
  destruct (reading_retry_spec st records err st1 Hc Hread Hkind)
    as (st' & l & Hr & Hl & Hown & _).
  destruct (callRead_spec _ _ _ Hread) as [_ (l0 & Hl0 & Hown0 & _)].
  cbn [fst snd] in Hl0.
  exists st', (CRead records err :: l0 ++ l). unfold step. rewrite Hr.
  split; [reflexivity|].
  assert (Hcalls : calls st' = calls st ++ CRead records err :: l0 ++ l).
  { rewrite Hl, Hl0. now norm_calls. }
  assert (Hst : statuses (CRead records err :: l0 ++ l) =
    match fst (api_Reset (world st1)) with
    | Some resetErr =>
        [(Degraded, Sprintf "%s: %v" [AStr resetError; AErr (Some resetErr)])]
    | None => []
    end).
  { cbn [statuses]. rewrite statuses_app.
    rewrite <- (own_statuses l0), Hown0, <- (own_statuses l), Hown.
    unfold afterReset. now destruct (fst (api_Reset (world st1))). }
  split; [exact Hcalls|]. split; [exact Hst|].
  intros Hok. unfold lastStatus. rewrite Hcalls, statuses_app, Hst, Hok.
  now rewrite app_nil_r.
Qed.

(** ** EventChannelNotFound on a file *)

(** C7. EventChannelNotFound from [open()] or [read()] while [isFile()] is
    true gets no retry: from [open()] the pass writes Degraded and [Run]
    returns the wrapped error; from [read()] there is no reset, and the pass
    ends [Run] the way any other read error does (nil when the cancellation
    signal has been observed, else Degraded and that error). *)
Theorem channel_not_found_on_file_is_not_retried (w : W) k :
  (forall st cp st0 e st1,
     steps k (start w) = At Opening st ->
     cancelCtx_Err st = false ->
     initCheckpoint st = (cp, st0) ->
     callOpen cp st0 = (Some e, st1) ->
     IsChannelNotFound (Some e) = true ->
     api_IsFile (world st1) = true ->
     exists st',
       step (At Opening st) =
         Halted (Some (Errorf "failed to open Windows Event Log channel %q: %w"
                         (api_Channel (world st1)) e)) st' /\
       calls st' = calls st1 ++
         [CUpdateStatus Running (Lit "");
          CUpdateStatus Degraded
            (Sprintf "failed to open Windows Event Log channel %q: %v"
               [AStr (api_Channel (world st1)); AErr (Some e)])] /\
       forall fuel, k < fuel ->
         Run fuel w =
           Some (Some (Errorf "failed to open Windows Event Log channel %q: %w"
                         (api_Channel (world st1)) e), snd (cancelFn st'))) /\
  (forall st records e st1,
     steps k (start w) = At Reading st ->
     cancelCtx_Err st = false ->
     callRead st = ((records, Some e), st1) ->
     IsChannelNotFound (Some e) = true ->
     api_IsFile (world st1) = true ->
     exists st',
       step (At Reading st) =
         Halted (if cancelCtx_Err st1 then None else Some e) st' /\
       calls st' = calls st1 ++
         (if cancelCtx_Err st1 then []
          else [Log_Errorw eventLogReadingError (Some e);
                CUpdateStatus Degraded
                  (Sprintf "%s: %v"
                     [AStr eventLogReadingError; AErr (Some e)])]) /\
       forall fuel, k < fuel ->
         Run fuel w =
           Some (if cancelCtx_Err st1 then None else Some e,
                 snd (cancelFn st'))).
Proof.
  split.
  - intros st cp st0 e st1 Hk Hc Hinit Hopen Hchan Hfile.
    destruct (opening_spec st cp st0 (Some e) st1 Hc Hinit Hopen)
      as (st' & l & Hop & Hl & Hown & _).
    assert (Hrec : IsRecoverable (Some e) = false).
    { cbn in *. now destruct (kindOf e). }
    unfold openOutcome in Hop. unfold afterOpen in Hown.
    rewrite Hrec, Hfile in Hop, Hown. cbn [negb andb] in Hop, Hown.
    assert (Hs : step (At Opening st) =
      Halted (Some (Errorf openFailedWrap (api_Channel (world st1)) e)) st').
    { unfold step. now rewrite Hop. }
    exists st'. split; [exact Hs|]. split.
    + revert Hop Hl. unfold opening, bind, cancelCtx_done.
      rewrite Hc, Hinit, Hopen. unfold UpdateStatus, emit at 1.
      cbn [fst snd]. rewrite Hrec. unfold gets at 1. cbn [world].
      rewrite Hfile. cbn [negb andb]. unfold gets, emit, ret. cbn [fst snd].
      intros [= <-] _. cbn [calls]. now norm_calls.
    + now apply (Run_returns w k Opening st).
  - intros st records e st1 Hk Hc Hread Hchan Hfile.
    assert (Hrec : IsRecoverable (Some e) = false).
    { cbn in *. now destruct (kindOf e). }
    assert (Heof : Is_EOF e = false).
    { unfold Is_EOF. cbn in Hchan. now destruct (kindOf e). }
    assert (Hs : exists st',
      step (At Reading st) =
        Halted (if cancelCtx_Err st1 then None else Some e) st' /\
      calls st' = calls st1 ++
        (if cancelCtx_Err st1 then []
         else [Log_Errorw eventLogReadingError (Some e);
               CUpdateStatus Degraded
                 (Sprintf "%s: %v"
                    [AStr eventLogReadingError; AErr (Some e)])])).
    { unfold step, reading, bind, cancelCtx_done. rewrite Hc, Hread.
      cbn [fst snd]. rewrite Hrec. unfold gets. rewrite Hfile.
      cbn [negb andb]. rewrite Heof.
      destruct (cancelCtx_Err st1).
      - exists st1. unfold ret. now rewrite app_nil_r.
      - unfold UpdateStatus, emit, ret. cbn [fst snd]. eexists.
        split; [reflexivity|]. cbn [calls]. now norm_calls. }
    destruct Hs as (st' & Hs & Hl). exists st'.
    split; [exact Hs|]. split; [exact Hl|].
    now apply (Run_returns w k Reading st).
Qed.

(** ** The checkpoint *)

(** C4. When the cursor is not new and [unpack()] fails, [initCheckpoint]
    logs the failure and gives the zero-value checkpoint; the pass goes on to
    call [open()] with it, and returns an error only if that [open()] fails. *)
Theorem corrupt_checkpoint_replays_from_start (st : St W) cp e :
  cancelCtx_Err st = false ->
  cursor_IsNew (world st) = false ->
  cursor_Unpack zeroState (world st) = (cp, Some e) ->
  exists st0 openErr st1 st' l,
    initCheckpoint st = (zeroState, st0) /\
    calls st0 = calls st ++
      [CUnpack (Some e);
       Log_Errorf
         "Reset winlog position. Failed to read checkpoint from registry: %v"
         (Some e)] /\
    callOpen zeroState st0 = (openErr, st1) /\
    openErr = fst (api_Open zeroState (world st)) /\
    calls (stateOf (step (At Opening st))) =
      calls st0 ++ COpen zeroState openErr :: l /\
    (openErr = None -> step (At Opening st) = At Reading st') /\
    (forall err st'', step (At Opening st) = Halted err st'' ->
       exists oe, openErr = Some oe /\
         err = Some (Errorf "failed to open Windows Event Log channel %q: %w"
                       (api_Channel (world st1)) oe)).
Proof.
  intros Hc Hnew Hunpack.
  assert (Hinit : initCheckpoint st =
    (zeroState,
     mkSt (world st)
       (calls st ++
        [CUnpack (Some e);
         Log_Errorf
           "Reset winlog position. Failed to read checkpoint from registry: %v"
           (Some e)])
       (cancelCtx_Err st) (channelNotFoundErrDetected st))).
  { unfold initCheckpoint, bind, gets, emit, ret. rewrite Hnew.
    cbn [fst snd]. rewrite Hunpack. cbn [fst snd calls]. now norm_calls. }
  set (st0 := mkSt _ _ _ _) in Hinit.
  destruct (callOpen zeroState st0) as [openErr st1] eqn:Hopen.
  destruct (callOpen_spec _ _ _ _ Hopen) as [Herr (l1 & Hl1 & _)].
  destruct (opening_spec st zeroState st0 openErr st1 Hc Hinit Hopen)
    as (st' & l & Hop & Hl & _).
  exists st0, openErr, st1, st',
    (l1 ++ CUpdateStatus Running (Lit "") :: l).
  split; [exact Hinit|]. split; [reflexivity|]. split; [exact Hopen|].
  split; [exact Herr|].
  assert (Hcalls : calls st' = calls st0 ++ COpen zeroState openErr
                     :: l1 ++ CUpdateStatus Running (Lit "") :: l).
  { rewrite Hl, Hl1. now norm_calls. }
  unfold step. rewrite Hop. unfold openOutcome.
  destruct (IsRecoverable openErr) eqn:Hrec.
  { split; [exact Hcalls|]. split; [intros ->|]; discriminate. }
  destruct (negb (api_IsFile (world st1)) && IsChannelNotFound openErr)
    eqn:Hchan.
  { split; [exact Hcalls|]. split; [intros ->|discriminate].
    rewrite andb_false_r in Hchan. discriminate. }
  destruct openErr as [oe|]; (split; [exact Hcalls|]).
  - split; [discriminate|]. intros err st'' [= <- <-]. now exists oe.
  - split; [reflexivity|discriminate].
Qed.

(** ** Status ordering on the opening path *)

(** C9. In every opening pass the first status written is Running, right
    after [open()] has returned and whatever its result: only calls of the
    cancellation callback can come between, and everything that depends on
    the class of the result comes after. When the result is again
    EventChannelNotFound on a source that is not a file, the pass writes
    Running and then Degraded. *)
Theorem running_written_before_classification (st : St W) cp st0 openErr st1 :
  cancelCtx_Err st = false ->
  initCheckpoint st = (cp, st0) ->
  callOpen cp st0 = (openErr, st1) ->
  exists l0 l1 l2,
    calls st0 = calls st ++ l0 /\ statuses l0 = [] /\
    calls st1 = calls st0 ++ COpen cp openErr :: l1 /\ own l1 = [] /\
    calls (stateOf (step (At Opening st))) =
      calls st1 ++ CUpdateStatus Running (Lit "") :: l2 /\
    lastStatus (calls st1 ++ [CUpdateStatus Running (Lit "")]) =
      Some (Running, Lit "") /\
    (negb (api_IsFile (world st1)) && IsChannelNotFound openErr = true ->
     statuses (l0 ++ COpen cp openErr :: l1 ++
               CUpdateStatus Running (Lit "") :: l2) =
       [(Running, Lit "");
        (Degraded,
         Sprintf "%s: %v" [AStr channelNotFoundError; AErr openErr])]).
Proof.
  intros Hc Hinit Hopen.
  pose proof (initCheckpoint_spec st) as (_ & _ & _ & l0 & Hl0 & Hs0 & _).
  rewrite Hinit in Hl0. cbn [snd] in Hl0.
  destruct (callOpen_spec _ _ _ _ Hopen) as [_ (l1 & Hl1 & Hown1 & _)].
  destruct (opening_spec st cp st0 openErr st1 Hc Hinit Hopen)
    as (st' & l2 & Hop & Hl2 & Hown2 & _).
  exists l0, l1, l2.
  split; [exact Hl0|]. split; [exact Hs0|]. split; [exact Hl1|].
  split; [exact Hown1|]. split.
  { unfold step. rewrite Hop. now destruct (openOutcome _ _ _). }
  split.
  { unfold lastStatus. rewrite statuses_app, map_app. cbn [statuses map].
    apply last_last. }
  intros Hchan.
  assert (Hrec : IsRecoverable openErr = false).
  { destruct openErr as [e|]; [|reflexivity].
    apply andb_prop in Hchan. destruct Hchan as [_ Hchan].
    cbn in *. now destruct (kindOf e). }
  rewrite statuses_app, Hs0. cbn [app statuses]. rewrite statuses_app.
  cbn [statuses].
  rewrite <- (own_statuses l1), Hown1, <- (own_statuses l2), Hown2.
  unfold afterOpen. rewrite Hrec, Hchan.
  now destruct (channelNotFoundErrDetected st).
Qed.

(** ** Recoverable errors on open *)

Section Retrying.

(** A source whose [open()] keeps W failing with a Recoverable error: [Inv]
    holds of the worlds it passes through. *)
Variable Inv : W -> Prop.
Hypothesis open_fails : forall w cp,
  Inv w ->
  IsRecoverable (fst (api_Open cp w)) = true /\ Inv (snd (api_Open cp w)).
Hypothesis time_passes : forall w d, Inv w -> Inv (elapse d w).
Hypothesis close_keeps : forall w, Inv w -> Inv (snd (api_Close w)).

Lemma poll_world (st : St W) : Inv (world st) -> Inv (world (snd (poll st))).
Proof.
  intros Hw.
  destruct (poll_spec st) as [_ [->|l _ _ _ _ Hworld _ _ _ _ _ _ _]];
    [assumption|].
  rewrite Hworld. now apply close_keeps.
Qed.

Lemma callOpen_world cp (st : St W) :
  Inv (world st) ->
  IsRecoverable (fst (callOpen cp st)) = true /\
  Inv (world (snd (callOpen cp st))).
Proof.
  intros Hw. destruct (open_fails (world st) cp Hw) as [Hrec Hw'].
  unfold callOpen, bind, call, emit, ret.
  destruct (api_Open cp (world st)) as [e w']. cbn [fst snd] in *.
  match goal with |- context [poll ?s] =>
    pose proof (poll_world s Hw') as Hp; destruct (poll s) as [[] st2] end.
  now split.
Qed.

Lemma timed_Wait_world d (st : St W) :
  Inv (world st) -> Inv (world (snd (timed_Wait d st))).
Proof.
  intros Hw. unfold timed_Wait, bind, emit, cancelCtx_done, call, ret.
  cbn [fst snd cancelCtx_Err].
  destruct (cancelCtx_Err st); [exact Hw|].
  match goal with |- context [poll ?s] =>
    pose proof (poll_world s (time_passes _ d Hw)) as Hp;
    destruct (poll s) as [[] st2] end.
  exact Hp.
Qed.

(** One pass: [open()], Running, the error log, the 5 second wait, and back
    to the head of [runLoop] with the flag as it was. *)
Lemma retry_pass (st : St W) :
  Inv (world st) -> cancelCtx_Err st = false ->
  exists st' l,
    step (At Opening st) = At Opening st' /\
    Inv (world st') /\
    calls st' = calls (snd (initCheckpoint st)) ++ l /\
    own l =
      (let cp := fst (initCheckpoint st) in
       let openErr := fst (api_Open cp (world st)) in
       [COpen cp openErr;
        CUpdateStatus Running (Lit "");
        Log_Errorw
          "Encountered recoverable error when opening Windows Event Log"
          openErr;
        CWait (5 * Second)%Z]) /\
    channelNotFoundErrDetected st' = channelNotFoundErrDetected st /\
    (exists l', calls st' = calls st ++ l' /\
       waits l' = [(5 * Second)%Z] /\ List.length (opens l') = 1) /\
    ((forall w, Inv w -> Cancelation_Err w = false) ->
     cancelCtx_Err st' = false).
Proof.
  intros Hw Hc.
  destruct (initCheckpoint st) as [cp st0] eqn:Hinit.
  pose proof (initCheckpoint_spec st)
    as (Hw0 & Hc0 & _ & l0 & Hl0 & _ & Ho0 & Hwt0 & _).
  rewrite Hinit in Hw0, Hc0, Hl0. cbn [fst snd] in *.
  assert (Hw0' : Inv (world st0)) by now rewrite Hw0.
  destruct (callOpen_world cp st0 Hw0') as [Hrec Hw1].
  destruct (callOpen cp st0) as [openErr st1] eqn:Hopen.
  cbn [fst snd] in Hrec, Hw1.
  destruct (callOpen_spec _ _ _ _ Hopen)
    as [Herr (l1 & Hl1 & Hown1 & _ & _ & Hq1 & _ & Hn1)].
  destruct (opening_spec st cp st0 openErr st1 Hc Hinit Hopen)
    as (st' & l2 & Hop & Hl2 & Hown2 & Hflag & _ & _ & Hretry & _).
  specialize (Hretry Hrec).
  unfold openOutcome in Hop. unfold afterOpen in Hown2.
  unfold flagAfterOpen in Hflag. rewrite Hrec in Hop, Hown2, Hflag.
  assert (Hown : own (COpen cp openErr :: l1 ++
                      CUpdateStatus Running (Lit "") :: l2) =
                 [COpen cp openErr; CUpdateStatus Running (Lit "");
                  Log_Errorw recoverableOpenMsg openErr;
                  CWait (5 * Second)%Z]).
  { change (own (COpen cp openErr :: ?t)) with (COpen cp openErr :: own t).
    rewrite own_app, Hown1.
    change (own (CUpdateStatus Running (Lit "") :: l2))
      with (CUpdateStatus Running (Lit "") :: own l2).
    now rewrite Hown2. }
  assert (Hcalls : calls st' = calls st0 ++ COpen cp openErr :: l1 ++
                     CUpdateStatus Running (Lit "") :: l2).
  { rewrite Hl2, Hl1. now norm_calls. }
  exists st', (COpen cp openErr :: l1 ++ CUpdateStatus Running (Lit "") :: l2).
  unfold step. rewrite Hop. split; [reflexivity|]. split.
  { rewrite Hretry. unfold retryState. apply timed_Wait_world. exact Hw1. }
  split; [exact Hcalls|]. split.
  { rewrite Hown, Herr, Hw0. reflexivity. }
  split; [exact Hflag|]. split.
  { exists (l0 ++ COpen cp openErr :: l1 ++
            CUpdateStatus Running (Lit "") :: l2).
    split; [rewrite Hcalls, Hl0; now norm_calls|].
    rewrite waits_app, opens_app, Hwt0, Ho0.
    rewrite <- own_waits, <- own_opens, Hown. now split. }
  intros Hquiet.
  assert (Hc1 : cancelCtx_Err st1 = false).
  { destruct (cancelCtx_Err st1) eqn:Hc1; [|reflexivity].
    destruct (Cancelation_Err (snd (api_Open cp (world st0)))) eqn:Hsig.
    - rewrite Hquiet in Hsig; [discriminate|]. now apply open_fails.
    - specialize (Hn1 eq_refl). congruence. }
  rewrite Hretry. unfold retryState.
  match goal with |- context [timed_Wait ?d ?s] =>
    destruct (timed_Wait_spec d s) as (_ & _ & _ & _ & _ & _ & Hstay) end.
  apply Hstay; [exact Hc1|].
  apply Hquiet. apply time_passes. exact Hw1.
Qed.

(** However many passes: still retrying, or returned nil because
    [cancelCtx] is done. *)
Lemma retry_forever n (st : St W) :
  Inv (world st) ->
  match steps n (At Opening st) with
  | At ph st' => ph = Opening /\ Inv (world st')
  | Halted err st' => err = None /\ cancelCtx_Err st' = true
  end.
Proof.
  revert st. induction n as [|n IH]; intros st Hw; [now split|].
  cbn [steps]. destruct (cancelCtx_Err st) eqn:Hc.
  - rewrite (opening_cancelled st Hc), steps_Halted. now split.
  - destruct (retry_pass st Hw Hc) as (st' & l & Hs & Hw' & _).
    rewrite Hs. now apply IH.
Qed.

Lemma retry_unbounded n (st : St W) :
  (forall w, Inv w -> Cancelation_Err w = false) ->
  Inv (world st) -> cancelCtx_Err st = false ->
  exists st' l,
    steps n (At Opening st) = At Opening st' /\
    cancelCtx_Err st' = false /\
    calls st' = calls st ++ l /\
    waits l = repeat (5 * Second)%Z n /\
    List.length (opens l) = n.
Proof.
  intros Hquiet. revert st. induction n as [|n IH]; intros st Hw Hc.
  - exists st, []. rewrite app_nil_r. now repeat split.
  - destruct (retry_pass st Hw Hc)
      as (st1 & _ & Hs & Hw1 & _ & _ & _ & (l1 & Hl1 & Hwt1 & Ho1) & Hc1).
    destruct (IH st1 Hw1 (Hc1 Hquiet)) as (st' & l & Hn & Hc' & Hl & Hwt & Ho).
    exists st', (l1 ++ l). cbn [steps]. rewrite Hs.
    split; [exact Hn|]. split; [exact Hc'|].
    split; [rewrite Hl, Hl1; now norm_calls|].
    rewrite waits_app, opens_app, length_app, Hwt1, Hwt, Ho1, Ho.
    now split.
Qed.

End Retrying.

(** ** Cancellation and [close()] *)

(** A pass that returns an error although [cancelCtx] became done during it
    is the fatal [open()] exit. *)
Lemma opening_error_after_signal (st : St W) err st' :
  cancelCtx_Err st = false ->
  opening st = (Return (Some err), st') ->
  exists l channel openErr,
    calls st' = l ++ [CUpdateStatus Degraded
                        (Sprintf openFailedFormat
                           [AStr channel; AErr (Some openErr)])] /\
    err = Errorf openFailedWrap channel openErr.
Proof.
  intros Hc Hstep.
  destruct (initCheckpoint st) as [cp st0] eqn:Hinit.
  destruct (callOpen cp st0) as [openErr st1] eqn:Hopen.
  destruct (opening_spec st cp st0 openErr st1 Hc Hinit Hopen)
    as (st2 & l & Hop & Hl & _ & _ & _ & _ & _ & Hfatal).
  rewrite Hop in Hstep. unfold openOutcome in Hstep.
  destruct (IsRecoverable openErr); [discriminate|].
  destruct (negb (api_IsFile (world st1)) && IsChannelNotFound openErr);
    [discriminate|].
  destruct openErr as [e|]; [|discriminate].
  injection Hstep as <- <-.
  rewrite (Hfatal eq_refl eq_refl ltac:(discriminate)) in Hl.
  exists (calls st1 ++ [CUpdateStatus Running (Lit "")]),
    (api_Channel (world st1)), e.
  split; [rewrite Hl; now norm_calls|reflexivity].
Qed.

(** ... or the publish exit. *)
Lemma reading_error_after_signal (st : St W) err st' :
  cancelCtx_Err st = false ->
  reading st = (Return (Some err), st') ->
  cancelCtx_Err st' = true ->
  exists l, calls st' = l ++ [publishFailed (Some err)].
Proof.
  intros Hc Hstep Hc'. revert Hstep.
  unfold reading, bind, cancelCtx_done. rewrite Hc.
  destruct (callRead st) as [[records e] st1] eqn:Hread. cbn [fst snd].
  destruct (IsRecoverable e).
  { destruct (emit _ st1) as [[] st2]. destruct (resetHandle st2) as [[] st3].
    discriminate. }
  unfold gets.
  destruct (negb (api_IsFile (world st1)) && IsChannelNotFound e).
  { destruct (emit _ st1) as [[] st2]. destruct (resetHandle st2) as [[] st3].
    discriminate. }
  destruct e as [e|].
  - destruct (Is_EOF e); [unfold emit, ret; discriminate|].
    destruct (cancelCtx_Err st1) eqn:Hc1; [unfold ret; discriminate|].
    unfold UpdateStatus, emit, ret. cbn [fst snd]. intros [= <- <-].
    cbn [cancelCtx_Err] in Hc'. congruence.
  - destruct records as [|r rs].
    + destruct (timed_Wait Second st1) as [[] st2]. discriminate.
    + destruct (publishRecords_spec (r :: rs) st1)
        as (perr & st2 & l & Hp & Hl & _ & Hfail).
      rewrite Hp. destruct perr as [pe|]; [|discriminate].
      unfold ret. intros [= <- <-].
      destruct (Hfail pe eq_refl) as (_ & _ & _ & _ & _ & l0 & ->).
      exists (calls st1 ++ l0). rewrite Hl. now rewrite app_assoc.
Qed.

End RunnerFacts.

(** * The properties on the scripted worlds *)

Lemma read_error_is_terminal_witness :
  steps 2 (start scenarioA) = At Reading (reached scenarioA 2) /\
  cancelCtx_Err (reached scenarioA 2) = false /\
  callRead (reached scenarioA 2) =
    (([], Some (Errno EndOfStream "EOF")),
     snd (callRead (reached scenarioA 2))) /\
  exists st', Run 3 scenarioA = Some (None, st').
Proof.
  assert (H1 : steps 2 (start scenarioA) = At Reading (reached scenarioA 2))
    by reflexivity.
  assert (H2 : cancelCtx_Err (reached scenarioA 2) = false) by reflexivity.
  assert (H3 : callRead (reached scenarioA 2) =
    (([], Some (Errno EndOfStream "EOF")),
     snd (callRead (reached scenarioA 2)))) by reflexivity.
  split; [exact H1|]. split; [exact H2|]. split; [exact H3|].
  destruct (read_error_is_terminal scenarioA 2 _ _ _ _ H1 H2 H3
              eq_refl eq_refl) as (err & st' & l & _ & HR & _ & Heof & _).
  destruct (Heof eq_refl) as [-> _].
  exists (snd (cancelFn st')). apply HR. lia.
Defined.

Lemma batch_published_in_order_witness :
  steps 1 (start publishFails) = At Reading (reached publishFails 1) /\
  cancelCtx_Err (reached publishFails 1) = false /\
  exists st',
    Run 2 publishFails = Some (Some disconnected, st') /\
    publishes (calls st') =
      [(mkEvent "a", position 10, None);
       (mkEvent "b", position 11, Some disconnected)].
Proof.
  assert (H1 : steps 1 (start publishFails) =
               At Reading (reached publishFails 1)) by reflexivity.
  assert (H2 : cancelCtx_Err (reached publishFails 1) = false)
    by reflexivity.
  split; [exact H1|]. split; [exact H2|].
  assert (H3 : callRead (reached publishFails 1) =
    (([mkRecord "a" (position 10); mkRecord "b" (position 11);
       mkRecord "c" (position 12)], None),
     snd (callRead (reached publishFails 1)))) by reflexivity.
  destruct (batch_published_in_order publishFails 1 _ _ _
              H1 H2 H3 ltac:(discriminate))
    as (perr & st' & l & Hp & _ & _ & Hfail).
  vm_compute in Hp. injection Hp as <- <-.
  destruct (Hfail disconnected eq_refl) as (_ & HR & _).
  eexists. split; [apply HR; lia|reflexivity].
Defined.

Lemma corrupt_checkpoint_replays_from_start_witness :
  cancelCtx_Err (reached corruptCheckpoint 0) = false /\
  cursor_IsNew (world (reached corruptCheckpoint 0)) = false /\
  cursor_Unpack zeroState (world (reached corruptCheckpoint 0)) =
    (position 7, Some corrupt) /\
  opens (calls (stateOf (step (start corruptCheckpoint)))) = [(zeroState, None)].
Proof.
  assert (H1 : cancelCtx_Err (reached corruptCheckpoint 0) = false)
    by reflexivity.
  assert (H2 : cursor_IsNew (world (reached corruptCheckpoint 0)) = false)
    by reflexivity.
  assert (H3 : cursor_Unpack zeroState (world (reached corruptCheckpoint 0))
               = (position 7, Some corrupt)) by reflexivity.
  split; [exact H1|]. split; [exact H2|]. split; [exact H3|].
  destruct (corrupt_checkpoint_replays_from_start _ _ _ H1 H2 H3)
    as (st0 & openErr & st1 & st' & l & _ & _ & _ & _ & _).
  reflexivity.
Defined.

Lemma recoverable_read_resets_and_reopens_witness :
  cancelCtx_Err (reached resetFails 1) = false /\
  callRead (reached resetFails 1) =
    (([], Some staleHandle), snd (callRead (reached resetFails 1))) /\
  IsRecoverable (Some staleHandle) = true /\
  exists st',
    step (At Reading (reached resetFails 1)) = At Opening st' /\
    statuses (calls st') =
      [(Running, Lit ""); (Running, Lit "");
       (Degraded,
        Sprintf "%s: %v" [AStr resetError; AErr (Some resetFailed)])].
Proof.
  assert (H1 : cancelCtx_Err (reached resetFails 1) = false) by reflexivity.
  assert (H2 : callRead (reached resetFails 1) =
    (([], Some staleHandle), snd (callRead (reached resetFails 1))))
    by reflexivity.
  assert (H3 : IsRecoverable (Some staleHandle) = true) by reflexivity.
  split; [exact H1|]. split; [exact H2|]. split; [exact H3|].
  destruct (recoverable_read_resets_and_reopens _ _ _ _ H1 H2 H3)
    as (st' & l & Hs & _).
  exists st'. split; [exact Hs|].
  vm_compute in Hs. injection Hs as <-. reflexivity.
Defined.

(** C5 as stated fails: [read()] returns a Recoverable error, the signal
    arrives while [reset()] is in flight, and [Run] returns nil with [open()]
    called once only. *)
Lemma cancel_during_reset_ends_run :
  Cancelation_Err (world (reached cancelledDuringReset 1)) = false /\
  fst (callRead (reached cancelledDuringReset 1)) = ([], Some staleHandle) /\
  exists st,
    Run 3 cancelledDuringReset = Some (None, st) /\
    own (calls st) =
      [CUpdateStatus Running (Lit "");
       COpen zeroState None;
       CUpdateStatus Running (Lit "");
       Log_Debug "Windows Event Log opened successfully";
       CRead [] (Some staleHandle);
       Log_Errorw
         "Encountered recoverable error when reading from Windows Event Log"
         (Some staleHandle);
       CReset None].
Proof.
  split; [reflexivity|]. split; [reflexivity|].
  vm_compute. eexists. split; [reflexivity|]. vm_compute. reflexivity.
Qed.

Lemma reset_path_status_frame_witness :
  cancelCtx_Err (reached resetWorks 1) = false /\
  callRead (reached resetWorks 1) =
    (([], Some staleHandle), snd (callRead (reached resetWorks 1))) /\
  IsRecoverable (Some staleHandle) = true /\
  exists st',
    step (At Reading (reached resetWorks 1)) = At Opening st' /\
    lastStatus (calls st') = lastStatus (calls (reached resetWorks 1)).
Proof.
  assert (H1 : cancelCtx_Err (reached resetWorks 1) = false) by reflexivity.
  assert (H2 : callRead (reached resetWorks 1) =
    (([], Some staleHandle), snd (callRead (reached resetWorks 1))))
    by reflexivity.
  assert (H3 : IsRecoverable (Some staleHandle) = true) by reflexivity.
  split; [exact H1|]. split; [exact H2|]. split; [exact H3|].
  destruct (reset_path_status_frame _ _ _ _ H1 H2 (or_introl H3))
    as (st' & l & Hs & _ & _ & Hlast).
  exists st'. split; [exact Hs|]. apply Hlast. reflexivity.
Defined.

Lemma channel_not_found_on_file_is_not_retried_witness :
  (exists e st',
     Run 1 channelMissingFile = Some (Some e, st') /\
     e = Errorf "failed to open Windows Event Log channel %q: %w"
           "archive.evtx" noChannel) /\
  (exists st', Run 2 readMissingFile = Some (Some noChannel, st')).
Proof.
  split.
  - destruct (channel_not_found_on_file_is_not_retried channelMissingFile 0)
      as (Hopen & _).
    assert (H1 : steps 0 (start channelMissingFile) =
                 At Opening (reached channelMissingFile 0)) by reflexivity.
    assert (H2 : cancelCtx_Err (reached channelMissingFile 0) = false)
      by reflexivity.
    assert (H3 : initCheckpoint (reached channelMissingFile 0) =
                 (zeroState, reached channelMissingFile 0)) by reflexivity.
    assert (H4 : callOpen zeroState (reached channelMissingFile 0) =
      (Some noChannel,
       snd (callOpen zeroState (reached channelMissingFile 0))))
      by reflexivity.
    destruct (Hopen _ _ _ _ _ H1 H2 H3 H4 eq_refl eq_refl)
      as (st' & _ & _ & HR).
    eexists _, _. split; [apply HR; lia|reflexivity].
  - destruct (channel_not_found_on_file_is_not_retried readMissingFile 1)
      as (_ & Hread).
    assert (H1 : steps 1 (start readMissingFile) =
                 At Reading (reached readMissingFile 1)) by reflexivity.
    assert (H2 : cancelCtx_Err (reached readMissingFile 1) = false)
      by reflexivity.
    assert (H3 : callRead (reached readMissingFile 1) =
      (([], Some noChannel), snd (callRead (reached readMissingFile 1))))
      by reflexivity.
    destruct (Hread _ _ _ _ H1 H2 H3 eq_refl eq_refl)
      as (st' & _ & _ & HR).
    eexists. apply (HR 2). lia.
Defined.

Lemma running_written_before_classification_witness :
  cancelCtx_Err (reached channelMissing 1) = false /\
  lastStatus (calls (reached channelMissing 1)) =
    Some (Degraded,
          Sprintf "%s: %v" [AStr channelNotFoundError; AErr (Some noChannel)]) /\
  exists l0 l1 l2,
    statuses (l0 ++ COpen zeroState (Some noChannel) :: l1 ++
              CUpdateStatus Running (Lit "") :: l2) =
      [(Running, Lit "");
       (Degraded,
        Sprintf "%s: %v" [AStr channelNotFoundError; AErr (Some noChannel)])].
Proof.
  assert (H1 : cancelCtx_Err (reached channelMissing 1) = false)
    by reflexivity.
  assert (H2 : initCheckpoint (reached channelMissing 1) =
               (zeroState, reached channelMissing 1)) by reflexivity.
  assert (H3 : callOpen zeroState (reached channelMissing 1) =
    (Some noChannel, snd (callOpen zeroState (reached channelMissing 1))))
    by reflexivity.
  split; [exact H1|]. split; [reflexivity|].
  destruct (running_written_before_classification _ _ _ _ _ H1 H2 H3)
    as (l0 & l1 & l2 & _ & _ & _ & _ & _ & _ & Hst).
  exists l0, l1, l2. apply Hst. reflexivity.
Defined.


(** The other error exit after a signal: it arrives while [read()] is in
    flight, the batch read is still offered to the publisher, and [Run]
    returns the publisher's error. *)
Lemma cancel_during_read_returns_publish_error :
  Cancelation_Err (world (reached cancelledDuringRead 1)) = false /\
  Cancelation_Err (snd (api_Read (world (reached cancelledDuringRead 1)))) =
    true /\
  exists st,
    Run 2 cancelledDuringRead = Some (Some disconnected, st) /\
    calls st =
      [CUpdateStatus Running (Lit "");
       COpen zeroState None;
       CUpdateStatus Running (Lit "");
       Log_Debug "Windows Event Log opened successfully";
       CRead [mkRecord "a" (position 10)] None;
       CClose None;
       CPublish (mkEvent "a") (position 10) (Some disconnected);
       CUpdateStatus Degraded
         (Sprintf "Error occurred while publishing from winlog: %v"
            [AErr (Some disconnected)])].
Proof.
  split; [vm_compute; reflexivity|]. split; [vm_compute; reflexivity|].
  exists (reached cancelledDuringRead 2).
  split; vm_compute; reflexivity.
Qed.

(** * More about the runner *)

Section RunFacts.

Context {W : Type} `{EventLog W} `{Cursor W} `{Publisher W} `{Canceler W}.

Ltac by_call_cases l IH :=
  induction l as [|c l IH]; [reflexivity|];
  destruct c; cbn; rewrite ?IH; try reflexivity.

Lemma reads_app l1 l2 : reads (l1 ++ l2) = reads l1 ++ reads l2.
Proof. by_call_cases l1 IH. Qed.

Lemma batches_app l1 l2 : batches (l1 ++ l2) = batches l1 ++ batches l2.
Proof.
  induction l1 as [|c l1 IH]; [reflexivity|].
  destruct c; try (cbn; exact IH).
  destruct err; cbn; [exact IH|]. now rewrite IH, app_assoc.
Qed.

Lemma offered_app l1 l2 : offered (l1 ++ l2) = offered l1 ++ offered l2.
Proof. by_call_cases l1 IH. Qed.

Lemma openedAfter_app o l1 l2 :
  openedAfter o (l1 ++ l2) = openedAfter (openedAfter o l1) l2.
Proof.
  revert o. induction l1 as [|c l1 IH]; intros o; [reflexivity|].
  destruct c; cbn; rewrite ?IH; try reflexivity. now destruct err.
Qed.

Lemma usesOpenHandle_app o l1 l2 :
  usesOpenHandle o (l1 ++ l2) =
  usesOpenHandle o l1 && usesOpenHandle (openedAfter o l1) l2.
Proof.
  revert o. induction l1 as [|c l1 IH]; intros o; [reflexivity|].
  destruct c; cbn; rewrite ?IH, ?andb_assoc; try reflexivity.
  now destruct err.
Qed.

Ltac by_own_cases l IH :=
  induction l as [|c l IH]; [reflexivity|];
  destruct c; cbn; rewrite <- ?IH; try reflexivity;
  try (unfold own; cbn; now destruct (String.eqb _ closeLogMsg)).

Lemma own_reads l : reads (own l) = reads l.
Proof. by_own_cases l IH. Qed.

Lemma own_batches l : batches (own l) = batches l.
Proof.
  induction l as [|c l IH]; [reflexivity|].
  destruct c; try (cbn; exact IH).
  - destruct err; cbn; [exact IH|]. now rewrite <- IH.
  - unfold own. cbn. destruct (String.eqb msg closeLogMsg); cbn; exact IH.
Qed.

Lemma own_offered l : offered (own l) = offered l.
Proof. by_own_cases l IH. Qed.

Lemma own_openedAfter o l : openedAfter o (own l) = openedAfter o l.
Proof.
  revert o. induction l as [|c l IH]; intros o; [reflexivity|].
  destruct c; try (cbn; apply IH).
  - destruct err; cbn; apply IH.
  - unfold own. cbn. destruct (String.eqb msg closeLogMsg); cbn; apply IH.
Qed.

Lemma own_usesOpenHandle o l : usesOpenHandle o (own l) = usesOpenHandle o l.
Proof.
  revert o. induction l as [|c l IH]; intros o; [reflexivity|].
  destruct c; try (cbn; apply IH); try (cbn; f_equal; apply IH).
  - destruct err; cbn; apply IH.
  - unfold own. cbn. destruct (String.eqb msg closeLogMsg); cbn; apply IH.
Qed.

Ltac norm_log := rewrite <- ?app_assoc; cbn [app].

Lemma initCheckpoint_eq (st : St W) :
  initCheckpoint st =
    (resumeFrom (world st),
     mkSt (world st) (calls st ++ unpackCalls (world st)) (cancelCtx_Err st)
          (channelNotFoundErrDetected st)).
Proof.
  unfold initCheckpoint, resumeFrom, unpackCalls, unpacked, bind, gets, emit,
    ret.
  destruct (cursor_IsNew (world st)); cbn [fst snd].
  - rewrite app_nil_r. now destruct st.
  - destruct (cursor_Unpack zeroState (world st)) as [cp [e|]]; cbn;
      now norm_log.
Qed.

Lemma own_unpackCalls (w : W) : own (unpackCalls w) = unpackCalls w.
Proof.
  unfold unpackCalls. destruct (unpacked w) as [[cp [e|]]|]; reflexivity.
Qed.

(** A whole opening pass, when [cancelCtx] is not done at its head. *)
Lemma opening_pass (st : St W) :
  cancelCtx_Err st = false ->
  exists openErr st1 st' l,
    openErr = fst (api_Open (resumeFrom (world st)) (world st)) /\
    opening st =
      (openOutcome (api_IsFile (world st1)) (api_Channel (world st1)) openErr,
       st') /\
    calls st' = calls st ++ l /\
    own l =
      unpackCalls (world st) ++
      COpen (resumeFrom (world st)) openErr ::
      CUpdateStatus Running (Lit "") ::
      afterOpen (channelNotFoundErrDetected st) (api_IsFile (world st1))
        (api_Channel (world st1)) openErr.
Proof.
  intros Hc. pose proof (initCheckpoint_eq st) as Hinit.
  set (st0 := mkSt _ _ _ _) in Hinit.
  destruct (callOpen (resumeFrom (world st)) st0) as [openErr st1] eqn:Hopen.
  destruct (callOpen_spec _ _ _ _ Hopen) as [Herr (l1 & Hl1 & Hown1 & _)].
  destruct (opening_spec st _ st0 openErr st1 Hc Hinit Hopen)
    as (st' & l2 & Hop & Hl2 & Hown2 & _).
  exists openErr, st1, st',
    (unpackCalls (world st) ++ COpen (resumeFrom (world st)) openErr
       :: l1 ++ CUpdateStatus Running (Lit "") :: l2).
  split; [exact Herr|]. split; [exact Hop|]. split.
  - rewrite Hl2, Hl1. subst st0. cbn [calls]. now norm_log.
  - rewrite own_app, own_unpackCalls. f_equal.
    change (own (COpen ?cp ?e :: ?t)) with (COpen cp e :: own t).
    rewrite own_app, Hown1.
    change (own (CUpdateStatus ?a ?b :: ?t)) with (CUpdateStatus a b :: own t).
    now rewrite Hown2.
Qed.

(** A whole read-loop pass, when [cancelCtx] is not done at its head. *)
Lemma reading_pass (st : St W) :
  cancelCtx_Err st = false ->
  exists records err st1 next st' l tail,
    callRead st = ((records, err), st1) /\
    reading st = (next, st') /\
    calls st' = calls st ++ l /\
    own l = CRead records err :: tail /\
    ReadTail records err (cancelCtx_Err st1) next tail /\
    (tail = [] -> err <> None -> cancelCtx_Err st' = true).
Proof.
  intros Hc.
  destruct (callRead st) as [[records err] st1] eqn:Hread.
  destruct (callRead_spec _ _ _ Hread) as [_ (l0 & Hl0 & Hown0 & _)].
  cbn [fst snd] in Hl0.
  assert (Hgoal : exists next st' l1 tail,
    reading st = (next, st') /\ calls st' = calls st1 ++ l1 /\
    own l1 = tail /\ ReadTail records err (cancelCtx_Err st1) next tail /\
    (tail = [] -> err <> None -> cancelCtx_Err st' = true)).
  { destruct (IsRecoverable err) eqn:Hrec.
    { destruct (reading_retry_spec st records err st1 Hc Hread
                  (or_introl Hrec)) as (st' & l & Hr & Hl & Hown & _).
      exists (Goto Opening), st', l, (own l).
      repeat split; trivial.
      - rewrite Hown. constructor. now destruct err.
      - rewrite Hown. discriminate. }
    destruct (negb (api_IsFile (world st1)) && IsChannelNotFound err)
      eqn:Hchan.
    { destruct (reading_retry_spec st records err st1 Hc Hread
                  (or_intror Hchan)) as (st' & l & Hr & Hl & Hown & _).
      exists (Goto Opening), st', l, (own l).
      repeat split; trivial.
      - rewrite Hown. constructor. destruct err; [discriminate|].
        now rewrite andb_false_r in Hchan.
      - rewrite Hown. discriminate. }
    unfold reading, bind, cancelCtx_done. rewrite Hc, Hread.
    cbn [fst snd]. rewrite Hrec. unfold gets. rewrite Hchan.
    destruct err as [e|].
    - destruct (Is_EOF e) eqn:Heof.
      + unfold emit, ret. do 4 eexists. split; [reflexivity|].
        cbn [calls]. split; [reflexivity|]. split; [reflexivity|].
        split; [now apply (tail_eof _ _ _ e)|discriminate].
      + destruct (cancelCtx_Err st1) eqn:Hc1.
        * unfold ret. exists (Return None), st1, [], [].
          split; [reflexivity|]. rewrite app_nil_r.
          repeat split; trivial. now apply (tail_race _ _ _ e).
        * unfold UpdateStatus, emit, ret. cbn [fst snd]. do 4 eexists.
          split; [reflexivity|]. cbn [calls]. norm_log.
          split; [reflexivity|]. split; [reflexivity|].
          split; [now apply (tail_fatal _ _ _ e)|discriminate].
    - destruct records as [|r rs].
      + destruct (timed_Wait_spec Second st1) as (lw & Hlw & Hown & _).
        destruct (timed_Wait Second st1) as [[] st'].
        cbn [snd] in Hlw. unfold ret.
        exists (Goto Reading), st', (CWait Second :: lw), [CWait Second].
        split; [reflexivity|]. split; [exact Hlw|].
        split; [unfold own in *; cbn; now rewrite Hown|].
        split; [now constructor|discriminate].
      + destruct (publishRecords_spec (r :: rs) st1)
          as (perr & st' & l & Hp & Hl & Hok & Hfail).
        rewrite Hp. destruct perr as [pe|]; unfold ret.
        * destruct (Hfail pe eq_refl) as (sent & rec & rest & Hsplit & Hown & _).
          exists (Return (Some pe)), st', l, (own l).
          split; [reflexivity|]. split; [exact Hl|]. split; [reflexivity|].
          rewrite Hown. split; [|now intros _ []].
          now apply (tail_refused _ _ _ sent rec rest pe).
        * exists (Goto Reading), st', l, (own l).
          split; [reflexivity|]. split; [exact Hl|]. split; [reflexivity|].
          rewrite (Hok eq_refl). split; [|now intros _ []].
          now apply tail_published. }
  destruct Hgoal as (next & st' & l1 & tail & Hr & Hl1 & Hown1 & Htail & Hrace).
  exists records, err, st1, next, st', (CRead records err :: l0 ++ l1), tail.
  split; [reflexivity|]. split; [exact Hr|]. split.
  - rewrite Hl1, Hl0. now norm_log.
  - split; [|now split].
    change (own (CRead ?a ?b :: ?t)) with (CRead a b :: own t).
    now rewrite own_app, Hown0, Hown1.
Qed.

(** [Run] up to the first pass. *)
Lemma start_spec (w : W) :
  exists st, start w = At Opening st /\
    own (calls st) = [CUpdateStatus Running (Lit "")] /\
    channelNotFoundErrDetected st = false.
Proof.
  unfold start, bind, set_detected, UpdateStatus, emit.
  set (st0 := mkSt w [] false false).
  destruct (poll_spec st0) as [_ Hp].
  destruct (poll st0) as [[] st1]. cbn [snd fst] in *.
  eexists. split; [reflexivity|]. cbn [calls channelNotFoundErrDetected].
  split; [|reflexivity]. rewrite own_app.
  destruct Hp as [->|l _ _ _ _ _ Hl Hown _ _ _ _ _].
  - reflexivity.
  - rewrite Hl. cbn [calls st0 app]. now rewrite Hown.
Qed.

Lemma unpacks_app l1 l2 : unpacks (l1 ++ l2) = unpacks l1 ++ unpacks l2.
Proof. by_call_cases l1 IH. Qed.

Lemma own_unpacks l : unpacks (own l) = unpacks l.
Proof. by_own_cases l IH. Qed.

(** What a read-loop pass adds after [read()] holds no open, no read, and
    only calls that need the handle open. *)
Lemma ReadTail_frame records err cancelled next tail :
  ReadTail records err cancelled next tail ->
  opens tail = [] /\ reads tail = [] /\ batches tail = [] /\
  openedAfter true tail = true /\ usesOpenHandle true tail = true.
Proof.
  assert (Hpub : forall rs,
    opens (map published rs) = [] /\ reads (map published rs) = [] /\
    batches (map published rs) = [] /\
    openedAfter true (map published rs) = true /\
    usesOpenHandle true (map published rs) = true).
  { induction rs as [|r rs IH]; [now repeat split|]. cbn. exact IH. }
  intros [msg resetErr _|e _ _|e _ _|e _ _|_ _|_ _|sent record rest e _ _].
  - unfold afterReset. destruct resetErr; now repeat split.
  - now repeat split.
  - now repeat split.
  - now repeat split.
  - now repeat split.
  - apply Hpub.
  - destruct (Hpub sent) as (Ho & Hr & Hb & Ha & Hu).
    rewrite opens_app, reads_app, batches_app, openedAfter_app,
      usesOpenHandle_app, Ho, Hr, Hb, Ha, Hu.
    now repeat split.
Qed.

Lemma afterOpen_frame detected isFile channel openErr :
  let tail := afterOpen detected isFile channel openErr in
  reads tail = [] /\ batches tail = [] /\ offered tail = [] /\
  openedAfter (match openErr with None => true | Some _ => false end) tail =
    (match openErr with None => true | Some _ => false end) /\
  forall o, usesOpenHandle o tail = true.
Proof.
  unfold afterOpen.
  destruct (IsRecoverable openErr); [now destruct openErr|].
  destruct (negb isFile && IsChannelNotFound openErr);
    [now destruct detected, openErr|now destruct openErr].
Qed.

Lemma unpackCalls_frame (w : W) :
  statuses (unpackCalls w) = [] /\ opens (unpackCalls w) = [] /\
  reads (unpackCalls w) = [] /\ batches (unpackCalls w) = [] /\
  offered (unpackCalls w) = [] /\
  (forall o, openedAfter o (unpackCalls w) = o) /\
  (forall o, usesOpenHandle o (unpackCalls w) = true).
Proof.
  unfold unpackCalls. destruct (unpacked w) as [[cp [e|]]|]; now repeat split.
Qed.

(** *** Invariants of a run *)

Lemma steps_invariant (I : Config W -> Prop) :
  (forall c, I c -> I (step c)) ->
  forall n c, I c -> I (steps n c).
Proof.
  intros Hstep n. induction n as [|n IH]; intros c Hc; [exact Hc|].
  cbn [steps]. apply IH, Hstep, Hc.
Qed.

(** What the deferred [cancelFn()] adds to the state the loops returned in. *)
Lemma Run_final fuel (w : W) err st :
  Run fuel w = Some (err, st) ->
  exists st0 l,
    steps fuel (start w) = Halted err st0 /\
    calls st = calls st0 ++ l /\ own l = [].
Proof.
  unfold Run, runLoop. destruct (steps fuel (start w)) as [ph st0|e st0];
    [discriminate|].
  intros [= <- <-]. exists st0. unfold cancelFn.
  destruct (cancelCtx_Err st0) eqn:Hc.
  - rewrite (fire_done st0 Hc). exists []. now rewrite app_nil_r.
  - destruct (fire_spec st0 Hc) as (l & Hl & _ & _ & _ & Hown & _).
    now exists l.
Qed.

Lemma lastStatus_app_quiet l1 l2 :
  statuses l2 = [] -> lastStatus (l1 ++ l2) = lastStatus l1.
Proof.
  intros Hq. unfold lastStatus. now rewrite statuses_app, Hq, app_nil_r.
Qed.

Lemma lastStatus_app_last l1 l2 pre s :
  statuses l2 = pre ++ [s] -> lastStatus (l1 ++ l2) = Some s.
Proof.
  intros Hs. unfold lastStatus.
  rewrite statuses_app, Hs, app_assoc, map_app. cbn [map]. apply last_last.
Qed.

(** X1. An empty batch without error: the pass makes no call of its own but
    the 1 second wait, publishes nothing, and stays in the read loop, whose
    next pass calls [read()] again unless [cancelCtx] is done by then. *)
Theorem empty_read_polls_again (st : St W) st1 :
  cancelCtx_Err st = false ->
  callRead st = (([], None), st1) ->
  exists st' l,
    step (At Reading st) = At Reading st' /\
    calls st' = calls st ++ l /\
    own l = [CRead [] None; CWait Second] /\
    (cancelCtx_Err st' = false ->
     exists l' r,
       calls (stateOf (step (At Reading st'))) = calls st' ++ l' /\
       reads l' = [r]) /\
    (cancelCtx_Err st' = true -> steps 2 (At Reading st') = Halted None st').
Proof.
  intros Hc Hread.
  destruct (reading_pass st Hc)
    as (records & err & st1' & next & st' & l & tail & Hread' & Hr & Hl
        & Hown & Htail & _).
  rewrite Hread in Hread'. injection Hread' as <- <- <-.
  assert (Hwait : next = Goto Reading /\ tail = [CWait Second]).
  { inversion Htail; subst; try discriminate; try contradiction.
    - now split.
    - match goal with H : [] = _ ++ _ :: _ |- _ =>
        now destruct sent in H end. }
  destruct Hwait as [-> ->].
  exists st', l. unfold step at 1. rewrite Hr.
  split; [reflexivity|]. split; [exact Hl|]. split; [exact Hown|]. split.
  - intros Hc'.
    destruct (reading_pass st' Hc')
      as (records2 & err2 & st2 & next2 & st'' & l2 & tail2 & _ & Hr2 & Hl2
          & Hown2 & Htail2 & _).
    exists l2, (records2, err2). split.
    + unfold step. rewrite Hr2. now destruct next2.
    + rewrite <- own_reads, Hown2. cbn [reads].
      now destruct (ReadTail_frame _ _ _ _ _ Htail2) as (_ & -> & _).
  - intros Hc'. cbn [steps].
    now rewrite (reading_cancelled st' Hc'), (opening_cancelled st' Hc').
Qed.

(** X2. The checkpoint given to [open()] is read from the cursor in the same
    pass: the zero value when the cursor is new ([Unpack] is then not called)
    or [Unpack] fails, and what [Unpack] stored otherwise. *)
Theorem open_resumes_from_cursor (st : St W) :
  cancelCtx_Err st = false ->
  exists l openErr,
    calls (stateOf (step (At Opening st))) = calls st ++ l /\
    opens l =
      [(if cursor_IsNew (world st) then zeroState
        else match cursor_Unpack zeroState (world st) with
             | (cp, None) => cp
             | (_, Some _) => zeroState
             end,
        openErr)] /\
    unpacks l =
      (if cursor_IsNew (world st) then []
       else [snd (cursor_Unpack zeroState (world st))]).
Proof.
  intros Hc.
  destruct (opening_pass st Hc) as (openErr & st1 & st' & l & _ & Hop & Hl & Hown).
  exists l, openErr. split.
  - unfold step. rewrite Hop. now destruct (openOutcome _ _ _).
  - rewrite <- own_opens, <- own_unpacks, Hown, opens_app, unpacks_app.
    destruct (unpackCalls_frame (world st)) as (_ & -> & _).
    cbn [app opens unpacks].
    pose proof (afterOpen_opens (channelNotFoundErrDetected st)
                  (api_IsFile (world st1)) (api_Channel (world st1)) openErr)
      as ->.
    assert (Hu : unpacks (afterOpen (channelNotFoundErrDetected st)
                   (api_IsFile (world st1)) (api_Channel (world st1)) openErr)
                 = []).
    { unfold afterOpen. destruct (IsRecoverable openErr); [reflexivity|].
      destruct (negb _ && _);
        [now destruct (channelNotFoundErrDetected st)|now destruct openErr]. }
    rewrite Hu, app_nil_r. unfold resumeFrom, unpackCalls, unpacked.
    destruct (cursor_IsNew (world st)); [now split|].
    now destruct (cursor_Unpack zeroState (world st)) as [cp [e|]].
Qed.

(** X3. Whenever the runner is at the head of the read loop, the status it
    last reported is Running. *)
Theorem reading_means_running (w : W) k st :
  steps k (start w) = At Reading st ->
  lastStatus (calls st) = Some (Running, Lit "").
Proof.
  intros Hk.
  set (I := fun c : Config W =>
    forall st, c = At Reading st ->
      lastStatus (calls st) = Some (Running, Lit "")).
  assert (HI : I (steps k (start w))); [|now apply HI].
  apply steps_invariant.
  - intros [[|] st0|e st0] Hc st1 Hs; [| |discriminate].
    + destruct (cancelCtx_Err st0) eqn:Hc0.
      { rewrite (opening_cancelled st0 Hc0) in Hs. discriminate. }
      destruct (opening_pass st0 Hc0)
        as (openErr & st2 & st' & l & _ & Hop & Hl & Hown).
      unfold step in Hs. rewrite Hop in Hs.
      unfold openOutcome, afterOpen in *.
      destruct (IsRecoverable openErr); [discriminate|].
      destruct (negb _ && _); [discriminate|].
      destruct openErr; [discriminate|]. injection Hs as <-.
      rewrite Hl. apply (lastStatus_app_last _ _ []).
      rewrite <- own_statuses, Hown, statuses_app.
      now destruct (unpackCalls_frame (world st0)) as (-> & _).
    + destruct (cancelCtx_Err st0) eqn:Hc0.
      { rewrite (reading_cancelled st0 Hc0) in Hs. discriminate. }
      destruct (reading_pass st0 Hc0)
        as (records & err & st2 & next & st' & l & tail & _ & Hr & Hl
            & Hown & Htail & _).
      unfold step in Hs. rewrite Hr in Hs.
      destruct next as [ph|e]; [|discriminate]. injection Hs as -> <-.
      rewrite Hl, lastStatus_app_quiet; [now apply Hc|].
      rewrite <- own_statuses, Hown. cbn [statuses].
      inversion Htail; subst; [reflexivity|].
      clear. induction records as [|r rs IH]; [reflexivity|exact IH].
  - destruct (start_spec w) as (st0 & -> & _). intros st1 [=].
Qed.

(** X4. [Run] never returns an error without having reported it: when it
    returns a non-nil error, the status last written is Degraded. *)
Theorem error_exit_is_degraded (w : W) fuel e st :
  Run fuel w = Some (Some e, st) ->
  exists msg, lastStatus (calls st) = Some (Degraded, msg).
Proof.
  intros HR. destruct (Run_final fuel w _ _ HR) as (st0 & lf & Hk & Hlf & Hown).
  set (I := fun c : Config W =>
    forall e st, c = Halted (Some e) st ->
      exists msg, lastStatus (calls st) = Some (Degraded, msg)).
  assert (HI : I (steps fuel (start w))).
  { apply steps_invariant.
    - intros [[|] st1|e1 st1] Hc e2 st2 Hs; [| |now apply (Hc e2)].
      + destruct (cancelCtx_Err st1) eqn:Hc1.
        { rewrite (opening_cancelled st1 Hc1) in Hs. discriminate. }
        destruct (opening_pass st1 Hc1)
          as (openErr & st3 & st' & l & _ & Hop & Hl & Hown1).
        unfold step in Hs. rewrite Hop in Hs.
        unfold openOutcome, afterOpen in *.
        destruct (IsRecoverable openErr); [discriminate|].
        destruct (negb _ && _); [discriminate|].
        destruct openErr as [oe|]; [|discriminate]. injection Hs as _ <-.
        eexists. rewrite Hl.
        apply (lastStatus_app_last _ _ [(Running, Lit "")]).
        rewrite <- own_statuses, Hown1, statuses_app.
        now destruct (unpackCalls_frame (world st1)) as (-> & _).
      + destruct (cancelCtx_Err st1) eqn:Hc1.
        { rewrite (reading_cancelled st1 Hc1) in Hs. discriminate. }
        destruct (reading_pass st1 Hc1)
          as (records & err & st3 & next & st' & l & tail & _ & Hr & Hl
              & Hown1 & Htail & _).
        unfold step in Hs. rewrite Hr in Hs.
        destruct next as [ph|[e3|]]; try discriminate.
        injection Hs as _ <-. rewrite Hl.
        inversion Htail; subst; eexists.
        * apply (lastStatus_app_last _ _ []).
          now rewrite <- own_statuses, Hown1.
        * apply (lastStatus_app_last _ _ []).
          rewrite <- own_statuses, Hown1. cbn [statuses].
          rewrite statuses_app.
          assert (Hp : statuses (map published sent) = []).
          { clear. induction sent as [|r rs IH]; [reflexivity|exact IH]. }
          now rewrite Hp.
    - destruct (start_spec w) as (st1 & -> & _). intros e1 st2 [=]. }
  destruct (HI e st0 Hk) as (msg & Hmsg). exists msg.
  rewrite Hlf, lastStatus_app_quiet; [exact Hmsg|].
  now rewrite <- own_statuses, Hown.
Qed.

(** X5. The loops of [Run] return nil for two reasons only: [cancelCtx] is
    done, or the last [read()] reported the end of the stream. *)
Theorem nil_exit_is_shutdown_or_eof (w : W) fuel st :
  runLoop fuel w = Some (None, st) ->
  cancelCtx_Err st = true \/
  exists records e,
    last (map Some (reads (calls st))) None = Some (records, Some e) /\
    Is_EOF e = true.
Proof.
  unfold runLoop. intros HR.
  set (I := fun c : Config W =>
    forall st, c = Halted None st ->
      cancelCtx_Err st = true \/
      exists records e,
        last (map Some (reads (calls st))) None = Some (records, Some e) /\
        Is_EOF e = true).
  assert (HI : I (steps fuel (start w))).
  { apply steps_invariant.
    - intros [[|] st1|e1 st1] Hc st2 Hs; [| |now apply Hc].
      + destruct (cancelCtx_Err st1) eqn:Hc1.
        { rewrite (opening_cancelled st1 Hc1) in Hs. injection Hs as <-.
          now left. }
        destruct (opening_pass st1 Hc1)
          as (openErr & st3 & st' & l & _ & Hop & _).
        unfold step in Hs. rewrite Hop in Hs. unfold openOutcome in Hs.
        destruct (IsRecoverable openErr); [discriminate|].
        destruct (negb _ && _); [discriminate|].
        destruct openErr; discriminate.
      + destruct (cancelCtx_Err st1) eqn:Hc1.
        { rewrite (reading_cancelled st1 Hc1) in Hs. discriminate. }
        destruct (reading_pass st1 Hc1)
          as (records & err & st3 & next & st' & l & tail & _ & Hr & Hl
              & Hown1 & Htail & Hrace).
        unfold step in Hs. rewrite Hr in Hs.
        destruct next as [ph|[e3|]]; try discriminate.
        injection Hs as <-.
        inversion Htail; subst; try discriminate.
        * right. exists records, e. split; [|assumption].
          rewrite Hl, reads_app, <- (own_reads l), Hown1, map_app.
          cbn [reads map]. apply last_last.
        * left. apply Hrace; [reflexivity|discriminate].
    - destruct (start_spec w) as (st1 & -> & _). intros st2 [=]. }
  destruct (steps fuel (start w)) as [ph st0|e st0] eqn:Hk; [discriminate|].
  injection HR as -> ->. now apply HI.
Qed.

(** X6. Through the whole run, [read()], [reset()] and [publish()] are only
    called while the latest [open()] has succeeded. *)
Theorem handle_used_only_when_open (w : W) k :
  usesOpenHandle false (calls (stateOf (steps k (start w)))) = true.
Proof.
  set (I := fun c : Config W =>
    usesOpenHandle false (calls (stateOf c)) = true /\
    forall st, c = At Reading st -> openedAfter false (calls st) = true).
  assert (HI : I (steps k (start w))); [|apply HI].
  apply steps_invariant.
  - intros [[|] st1|e1 st1] [Hu Ho]; [| |now split]; cbn [stateOf] in Hu.
    + destruct (cancelCtx_Err st1) eqn:Hc1.
      { rewrite (opening_cancelled st1 Hc1). split; [exact Hu|intros ? [=]]. }
      destruct (opening_pass st1 Hc1)
        as (openErr & st3 & st' & l & _ & Hop & Hl & Hown).
      destruct (unpackCalls_frame (world st1))
        as (_ & _ & _ & _ & _ & Hua & Huu).
      destruct (afterOpen_frame (channelNotFoundErrDetected st1)
                  (api_IsFile (world st3)) (api_Channel (world st3)) openErr)
        as (_ & _ & _ & Hoa & Hou).
      assert (Hst : stateOf (step (At Opening st1)) = st').
      { unfold step. rewrite Hop. now destruct (openOutcome _ _ _). }
      split.
      * rewrite Hst, Hl, usesOpenHandle_app, Hu.
        rewrite <- own_usesOpenHandle, Hown, usesOpenHandle_app, Huu.
        cbn [andb]. rewrite Hua. destruct openErr; cbn; apply Hou.
      * intros st2 Hs. unfold step in Hs. rewrite Hop in Hs.
        unfold openOutcome in Hs.
        destruct (IsRecoverable openErr); [discriminate|].
        destruct (negb _ && _); [discriminate|].
        destruct openErr; [discriminate|]. injection Hs as <-.
        rewrite Hl, openedAfter_app, <- own_openedAfter, Hown,
          openedAfter_app, Hua.
        cbn [openedAfter]. exact Hoa.
    + destruct (cancelCtx_Err st1) eqn:Hc1.
      { rewrite (reading_cancelled st1 Hc1). split; [exact Hu|intros ? [=]]. }
      specialize (Ho st1 eq_refl).
      destruct (reading_pass st1 Hc1)
        as (records & err & st3 & next & st' & l & tail & _ & Hr & Hl
            & Hown & Htail & _).
      destruct (ReadTail_frame _ _ _ _ _ Htail) as (_ & _ & _ & Hta & Htu).
      assert (Hst : stateOf (step (At Reading st1)) = st').
      { unfold step. rewrite Hr. now destruct next. }
      split.
      * rewrite Hst, Hl, usesOpenHandle_app, Hu, Ho.
        rewrite <- own_usesOpenHandle, Hown. cbn. exact Htu.
      * intros st2 Hs. rewrite Hs in Hst. cbn in Hst. subst st2.
        rewrite Hl, openedAfter_app, Ho, <- own_openedAfter, Hown.
        cbn. exact Hta.
  - destruct (start_spec w) as (st1 & -> & Hown & _). split; [|intros ? [=]].
    cbn [stateOf]. now rewrite <- own_usesOpenHandle, Hown.
Qed.

(** X7. At every loop head, what has been handed to the publisher is exactly
    the records of the batches read without error: each once, in the order
    read, with its own offset; records that came with a read error are not
    published. After a return, only the part of the last batch behind a
    refused record is left out. *)
Theorem published_is_what_was_read (w : W) k :
  match steps k (start w) with
  | At _ st => offered (calls st) = map offer (batches (calls st))
  | Halted err st =>
      exists rest,
        map offer (batches (calls st)) = offered (calls st) ++ rest /\
        ((forall m, lastStatus (calls st) <>
                    Some (Degraded, Sprintf publishFailedFormat m)) ->
         rest = [])
  end.
Proof.
  set (I := fun c : Config W =>
    match c with
    | At _ st => offered (calls st) = map offer (batches (calls st))
    | Halted err st =>
        exists rest,
          map offer (batches (calls st)) = offered (calls st) ++ rest /\
          ((forall m, lastStatus (calls st) <>
                      Some (Degraded, Sprintf publishFailedFormat m)) ->
           rest = [])
    end).
  assert (HI : I (steps k (start w))); [|exact HI].
  assert (Hpub : forall rs, offered (map published rs) = map offer rs).
  { induction rs as [|r rs IH]; [reflexivity|]. cbn. now rewrite IH. }
  apply steps_invariant.
  - intros [[|] st1|e1 st1] Hc; [| |exact Hc]; unfold I in Hc.
    + destruct (cancelCtx_Err st1) eqn:Hc1.
      { rewrite (opening_cancelled st1 Hc1). exists [].
        now rewrite app_nil_r, Hc. }
      destruct (opening_pass st1 Hc1)
        as (openErr & st3 & st' & l & _ & Hop & Hl & Hown).
      destruct (unpackCalls_frame (world st1))
        as (_ & _ & _ & Hub & Huo & _).
      destruct (afterOpen_frame (channelNotFoundErrDetected st1)
                  (api_IsFile (world st3)) (api_Channel (world st3)) openErr)
        as (_ & Hab & Hao & _).
      assert (Hsame : offered (calls st') = map offer (batches (calls st'))).
      { rewrite Hl, offered_app, batches_app, map_app, Hc.
        rewrite <- (own_offered l), <- (own_batches l), Hown, offered_app,
          batches_app, Huo, Hub.
        cbn [app offered batches]. now rewrite Hab, Hao. }
      unfold step. rewrite Hop.
      destruct (openOutcome _ _ _); [exact Hsame|].
      exists []. now rewrite app_nil_r, Hsame.
    + destruct (cancelCtx_Err st1) eqn:Hc1.
      { now rewrite (reading_cancelled st1 Hc1). }
      destruct (reading_pass st1 Hc1)
        as (records & err & st3 & next & st' & l & tail & _ & Hr & Hl
            & Hown & Htail & _).
      unfold step. rewrite Hr.
      assert (Ho : offered (calls st') = offered (calls st1) ++ offered tail).
      { now rewrite Hl, offered_app, <- (own_offered l), Hown. }
      assert (Hb : batches (calls st') =
                   batches (calls st1) ++
                   match err with None => records | Some _ => [] end).
      { rewrite Hl, batches_app, <- (own_batches l), Hown.
        destruct (ReadTail_frame _ _ _ _ _ Htail) as (_ & _ & Htb & _).
        cbn [batches]. destruct err; rewrite Htb, ?app_nil_r; reflexivity. }
      inversion Htail; subst; cbv beta iota delta [I].
      * rewrite Ho, Hb, Hc. destruct err; [|contradiction].
        rewrite app_nil_r. unfold afterReset.
        destruct resetErr; cbn; now rewrite app_nil_r.
      * exists []. rewrite Ho, Hb, Hc. cbn. now rewrite !app_nil_r.
      * exists []. rewrite Ho, Hb, Hc. cbn. now rewrite !app_nil_r.
      * exists []. rewrite Ho, Hb, Hc. cbn. now rewrite !app_nil_r.
      * rewrite Ho, Hb, Hc. cbn. now rewrite !app_nil_r.
      * rewrite Ho, Hb, Hc, Hpub. now rewrite map_app.
      * exists (map offer rest). split.
        -- rewrite Ho, Hb, Hc, offered_app, Hpub, !map_app. cbn.
           now rewrite <- !app_assoc.
        -- intros Hlast. exfalso. apply (Hlast [AErr (Some e)]).
           rewrite Hl. apply (lastStatus_app_last _ _ []).
           rewrite <- own_statuses, Hown. cbn [statuses].
           rewrite statuses_app.
           assert (Hp : statuses (map published sent) = []).
           { clear. induction sent as [|r rs IH]; [reflexivity|exact IH]. }
           now rewrite Hp.
  - destruct (start_spec w) as (st1 & -> & Hown & _). unfold I.
    now rewrite <- own_offered, <- own_batches, Hown.
Qed.

(** X8. [Test] opens the source with the zero checkpoint, and closes it
    exactly when that [open()] succeeded, returning what [close()] returned;
    a failed [open()] comes back wrapped with the channel name, and nothing is
    closed. It makes no other call. *)
Theorem Test_closes_what_it_opened (st : St W) :
  let openErr := fst (api_Open zeroState (world st)) in
  let opened := snd (api_Open zeroState (world st)) in
  calls (snd (Test st)) =
    calls st ++
    COpen zeroState openErr ::
    match openErr with
    | Some _ => []
    | None => [CClose (fst (api_Close opened))]
    end /\
  fst (Test st) =
    match openErr with
    | Some e => Some (Errorf "failed to open %q: %w" (api_Channel opened) e)
    | None => fst (api_Close opened)
    end /\
  closes (calls (snd (Test st))) =
    closes (calls st) + (match openErr with Some _ => 0 | None => 1 end).
Proof.
  cbv zeta. unfold Test, bind, call, emit, gets, ret.
  destruct (api_Open zeroState (world st)) as [[e|] w1]; cbn [fst snd].
  - cbn [calls world]. repeat split. rewrite closes_app. reflexivity.
  - cbn [world]. destruct (api_Close w1) as [cerr w2]. cbn [fst snd calls].
    rewrite <- app_assoc. cbn [app]. repeat split.
    rewrite closes_app. reflexivity.
Qed.

Lemma publishes_published rs :
  publishes (map published rs) =
  map (fun r => (ToEvent r, Offset r, None)) rs.
Proof. induction rs as [|r rs IH]; [reflexivity|]. cbn. now rewrite IH. Qed.

(** X18. [Run] invents no error: the error it returns is the one a [read()]
    or a [publish()] of the run returned, or the one an [open()] returned,
    wrapped with the channel name. *)
Theorem error_exit_has_a_cause (w : W) fuel e st :
  Run fuel w = Some (Some e, st) ->
  (exists records, In (records, Some e) (reads (calls st))) \/
  (exists event position, In (event, position, Some e) (publishes (calls st))) \/
  (exists cp openErr channel,
     In (cp, Some openErr) (opens (calls st)) /\
     e = Errorf "failed to open Windows Event Log channel %q: %w"
           channel openErr).
Proof.
  intros HR. destruct (Run_final fuel w _ _ HR) as (st0 & lf & Hk & Hlf & Hown).
  set (P := fun (e : Err) (l : list Call) =>
    (exists records, In (records, Some e) (reads l)) \/
    (exists event position, In (event, position, Some e) (publishes l)) \/
    (exists cp openErr channel,
       In (cp, Some openErr) (opens l) /\
       e = Errorf "failed to open Windows Event Log channel %q: %w"
             channel openErr)).
  assert (Happ : forall e l1 l2, P e (own l2) -> P e (l1 ++ l2)).
  { intros e1 l1 l2. unfold P.
    rewrite reads_app, publishes_app, opens_app, own_reads, own_publishes,
      own_opens.
    intros [[r Hr]|[[ev [pos Hp]]|(cp & oe & ch & Ho & He)]].
    - left. exists r. apply in_or_app. now right.
    - right. left. exists ev, pos. apply in_or_app. now right.
    - right. right. exists cp, oe, ch. split; [|exact He].
      apply in_or_app. now right. }
  set (I := fun c : Config W =>
    forall e st, c = Halted (Some e) st -> P e (calls st)).
  assert (HI : I (steps fuel (start w))).
  { apply steps_invariant.
    - intros [[|] st1|e1 st1] Hc e2 st2 Hs; [| |now apply Hc].
      + destruct (cancelCtx_Err st1) eqn:Hc1.
        { rewrite (opening_cancelled st1 Hc1) in Hs. discriminate. }
        destruct (opening_pass st1 Hc1)
          as (openErr & st3 & st' & l & _ & Hop & Hl & Hown1).
        unfold step in Hs. rewrite Hop in Hs. unfold openOutcome in Hs.
        destruct (IsRecoverable openErr); [discriminate|].
        destruct (negb _ && _); [discriminate|].
        destruct openErr as [oe|]; [|discriminate]. injection Hs as <- <-.
        rewrite Hl. apply Happ. rewrite Hown1. right. right.
        exists (resumeFrom (world st1)), oe, (api_Channel (world st3)).
        split; [|reflexivity].
        rewrite opens_app. apply in_or_app. right. now left.
      + destruct (cancelCtx_Err st1) eqn:Hc1.
        { rewrite (reading_cancelled st1 Hc1) in Hs. discriminate. }
        destruct (reading_pass st1 Hc1)
          as (records & err & st3 & next & st' & l & tail & _ & Hr & Hl
              & Hown1 & Htail & _).
        unfold step in Hs. rewrite Hr in Hs.
        destruct next as [ph|[e3|]]; try discriminate.
        injection Hs as <- <-. rewrite Hl. apply Happ. rewrite Hown1.
        inversion Htail; subst.
        * left. exists records. now left.
        * right. left. exists (ToEvent record), (Offset record).
          cbn [publishes]. rewrite publishes_app, publishes_published.
          apply in_or_app. right. now left.
    - destruct (start_spec w) as (st1 & -> & _). intros e1 st2 [=]. }
  specialize (HI e st0 Hk). rewrite Hlf. unfold P in *.
  rewrite reads_app, publishes_app, opens_app.
  rewrite <- (own_reads lf), <- (own_publishes lf), <- (own_opens lf), Hown.
  cbn [reads publishes opens]. now rewrite !app_nil_r.
Qed.

End RunFacts.

(** * The shutdown signal and the flag along a run *)

Section SignalFacts.

Context {W : Type} `{EventLog W} `{Cursor W} `{Publisher W} `{Canceler W}.

(** *** No signal is left unobserved *)

Lemma observed_poll (st : St W) : observed (snd (poll st)).
Proof.
  unfold observed, poll, bind, gets.
  destruct (Cancelation_Err (world st)) eqn:Hsig; cbn [fst snd].
  - intros _. destruct (cancelCtx_Err st) eqn:Hc.
    + now rewrite (fire_done st Hc).
    + now destruct (fire_spec st Hc) as (l & _ & Hc' & _).
  - unfold ret. cbn [snd]. congruence.
Qed.

Lemma sees_ret {A} (a : A) : sees W (ret a).
Proof. now intros st Hst. Qed.

Lemma sees_bind {A B} (m : M A) (k : A -> M B) :
  sees W m -> (forall a, sees W (k a)) -> sees W (bind m k).
Proof.
  intros Hm Hk st Hst. unfold bind.
  specialize (Hm st Hst). destruct (m st) as [a st1]. now apply Hk.
Qed.

Lemma sees_emit (c : Call) : sees W (emit c).
Proof. now intros st Hst. Qed.

Lemma sees_gets {A} (f : W -> A) : sees W (gets f).
Proof. now intros st Hst. Qed.

Lemma sees_flag (b : bool) : sees W (set_detected b).
Proof. now intros st Hst. Qed.

Lemma sees_callOpen cp : sees W (callOpen cp).
Proof.
  intros st _. unfold callOpen, bind, call, emit, ret.
  destruct (api_Open cp (world st)) as [e w]. cbn [fst snd].
  match goal with |- context [poll ?s] =>
    pose proof (observed_poll s) as Hp; destruct (poll s) as [[] st2] end.
  exact Hp.
Qed.

Lemma sees_callRead : sees W callRead.
Proof.
  intros st _. unfold callRead, bind, call, emit, ret.
  destruct (api_Read (world st)) as [e w]. cbn [fst snd].
  match goal with |- context [poll ?s] =>
    pose proof (observed_poll s) as Hp; destruct (poll s) as [[] st2] end.
  exact Hp.
Qed.

Lemma sees_callReset : sees W callReset.
Proof.
  intros st _. unfold callReset, bind, call, emit, ret.
  destruct (api_Reset (world st)) as [e w]. cbn [fst snd].
  match goal with |- context [poll ?s] =>
    pose proof (observed_poll s) as Hp; destruct (poll s) as [[] st2] end.
  exact Hp.
Qed.

Lemma sees_callPublish ev pos : sees W (callPublish ev pos).
Proof.
  intros st _. unfold callPublish, bind, call, emit, ret.
  destruct (publisher_Publish ev pos (world st)) as [e w]. cbn [fst snd].
  match goal with |- context [poll ?s] =>
    pose proof (observed_poll s) as Hp; destruct (poll s) as [[] st2] end.
  exact Hp.
Qed.

Lemma sees_timed_Wait d : sees W (timed_Wait d).
Proof.
  intros st _. unfold timed_Wait, bind, emit, cancelCtx_done, call, ret.
  cbn [fst snd cancelCtx_Err].
  destruct (cancelCtx_Err st) eqn:Hc; [now intros _|].
  match goal with |- context [poll ?s] =>
    pose proof (observed_poll s) as Hp; destruct (poll s) as [[] st2] end.
  exact Hp.
Qed.

Ltac sees_step :=
  match goal with
  | |- sees W (bind _ _) => apply sees_bind; [|intros ?]
  | |- sees W (ret _) => apply sees_ret
  | |- sees W (emit _) => apply sees_emit
  | |- sees W (UpdateStatus _ _) => apply sees_emit
  | |- sees W (gets _) => apply sees_gets
  | |- sees W (set_detected _) => apply sees_flag
  | |- sees W cancelCtx_done => now intros ? ?
  | |- sees W get_detected => now intros ? ?
  | |- sees W (callOpen _) => apply sees_callOpen
  | |- sees W callRead => apply sees_callRead
  | |- sees W callReset => apply sees_callReset
  | |- sees W (callPublish _ _) => apply sees_callPublish
  | |- sees W (timed_Wait _) => apply sees_timed_Wait
  | |- sees W (if ?b then _ else _) => destruct b
  | |- sees W (match ?x with Some _ => _ | None => _ end) => destruct x
  | |- sees W (match ?x with [] => _ | _ :: _ => _ end) => destruct x
  | |- sees W (let _ := _ in _) => cbv zeta
  end.

Lemma sees_initCheckpoint : sees W initCheckpoint.
Proof. unfold initCheckpoint. repeat sees_step. Qed.

Lemma sees_resetHandle : sees W resetHandle.
Proof. unfold resetHandle. repeat sees_step. Qed.

Lemma sees_publishRecords records : sees W (publishRecords records).
Proof.
  induction records as [|record rest IH]; cbn [publishRecords];
    [apply sees_ret|].
  apply sees_bind; [apply sees_callPublish|intros [e|]]; [|exact IH].
  repeat sees_step.
Qed.

Lemma sees_opening : sees W opening.
Proof.
  unfold opening. repeat first [apply sees_initCheckpoint | sees_step].
Qed.

Lemma sees_reading : sees W reading.
Proof.
  unfold reading.
  repeat first
    [ apply sees_resetHandle | apply sees_publishRecords | sees_step ].
Qed.

(** Wherever a run stands, a signal that stands has been observed. *)
Lemma observed_steps (w : W) k : observed (stateOf (steps k (start w))).
Proof.
  apply (steps_invariant (fun c => observed (stateOf c))).
  - intros [[|] st|e st] Hc; cbn [step stateOf] in *; [| |exact Hc].
    + pose proof (sees_opening st Hc) as Hs.
      destruct (opening st) as [[ph|e] st']; exact Hs.
    + pose proof (sees_reading st Hc) as Hs.
      destruct (reading st) as [[ph|e] st']; exact Hs.
  - unfold start, bind, set_detected, UpdateStatus, emit. cbn [stateOf].
    match goal with |- context [poll ?s] =>
      pose proof (observed_poll s) as Hp; destruct (poll s) as [[] st2] end.
    exact Hp.
Qed.

(** [cancelCtx] is done after a collaborator call exactly when it was done
    before or the signal stands when the call returns. *)
Lemma answered_done (st : St W) c w st' :
  answered st c w st' ->
  cancelCtx_Err st' = cancelCtx_Err st || Cancelation_Err w.
Proof.
  intros (l & _ & _ & _ & Hkeep & _ & Hsig & Hquiet).
  destruct (Cancelation_Err w).
  - rewrite orb_true_r. now apply Hsig.
  - rewrite orb_false_r. now apply Hquiet.
Qed.

Lemma timed_Wait_done d (st : St W) :
  cancelCtx_Err (snd (timed_Wait d st)) =
    cancelCtx_Err st || Cancelation_Err (elapse d (world st)).
Proof.
  unfold timed_Wait, bind, emit, cancelCtx_done, call, ret.
  cbn [fst snd cancelCtx_Err world].
  destruct (cancelCtx_Err st) eqn:Hc; [reflexivity|].
  pose proof (poll_answered st (CWait d) (elapse d (world st))) as Hp.
  rewrite Hc in Hp. apply answered_done in Hp. cbn [cancelCtx_Err] in Hp.
  rewrite Hc in Hp.
  destruct (poll _) as [[] st2]. exact Hp.
Qed.

Lemma steps_S n (c : Config W) : steps (S n) c = step (steps n c).
Proof.
  replace (S n) with (n + 1) by lia. now rewrite steps_add.
Qed.

End SignalFacts.

Section CancellationFacts.

Context {W : Type} `{EventLog W} `{Cursor W} `{Publisher W} `{Canceler W}.


End CancellationFacts.

Section FlagFacts.

Context {W : Type} `{EventLog W} `{Cursor W} `{Publisher W} `{Canceler W}.

Lemma reportedAfter_app b l1 l2 :
  reportedAfter b (l1 ++ l2) = reportedAfter (reportedAfter b l1) l2.
Proof.
  revert b. induction l1 as [|c l1 IH]; intros b; [reflexivity|].
  destruct c; cbn [app reportedAfter]; try apply IH.
  destruct err; apply IH.
Qed.

Lemma own_reportedAfter b l : reportedAfter b (own l) = reportedAfter b l.
Proof.
  revert b. induction l as [|c l IH]; intros b; [reflexivity|].
  destruct c; try (cbn; apply IH).
  - destruct err; cbn; apply IH.
  - unfold own. cbn [filter asynchronous negb].
    destruct (String.eqb msg closeLogMsg) eqn:Hmsg; cbn [negb].
    + apply String.eqb_eq in Hmsg. subst msg. fold (own l). rewrite IH.
      reflexivity.
    + fold (own l). cbn [reportedAfter reports]. apply IH.
Qed.

Lemma silent_ret {A} (a : A) : silent W (ret a).
Proof. intros st. exists []. now rewrite app_nil_r. Qed.

Lemma silent_bind {A B} (m : M A) (k : A -> M B) :
  silent W m -> (forall a, silent W (k a)) -> silent W (bind m k).
Proof.
  intros Hm Hk st. unfold bind.
  destruct (Hm st) as (l1 & Hl1 & Hq1). destruct (m st) as [a st1].
  destruct (Hk a st1) as (l2 & Hl2 & Hq2). cbn [snd] in *.
  exists (l1 ++ l2). split.
  - now rewrite Hl2, Hl1, app_assoc.
  - intros b. now rewrite reportedAfter_app, Hq1, Hq2.
Qed.

Lemma silent_emit (c : Call) :
  (forall b, reportedAfter b [c] = b) -> silent W (emit c).
Proof. intros Hc st. now exists [c]. Qed.

Lemma silent_quiet {A} (m : M A) :
  (forall st : St W, calls (snd (m st)) = calls st) -> silent W m.
Proof. intros Hm st. exists []. now rewrite app_nil_r. Qed.

Lemma silent_call {A} (f : W -> A * W) : silent W (call f).
Proof.
  intros st. exists []. unfold call. destruct (f (world st)) as [a w].
  split; [now rewrite app_nil_r|reflexivity].
Qed.

Lemma silent_poll : silent W poll.
Proof.
  intros st. destruct (poll_spec st) as [_ [->|l _ _ _ _ _ Hl Hown _ _ _ _ _]].
  - exists []. now rewrite app_nil_r.
  - exists l. split; [exact Hl|]. intros b.
    now rewrite <- own_reportedAfter, Hown.
Qed.

Ltac silent_step :=
  match goal with
  | |- silent W (bind _ _) => apply silent_bind; [|intros ?]
  | |- silent W (ret _) => apply silent_ret
  | |- silent W (emit _) => apply silent_emit; intros ?; reflexivity
  | |- silent W (UpdateStatus _ _) => apply silent_emit; intros ?; reflexivity
  | |- silent W (gets _) => apply silent_quiet; intros ?; reflexivity
  | |- silent W (call _) => apply silent_call
  | |- silent W poll => apply silent_poll
  | |- silent W (set_detected _) => apply silent_quiet; intros ?; reflexivity
  | |- silent W cancelCtx_done => apply silent_quiet; intros ?; reflexivity
  | |- silent W get_detected => apply silent_quiet; intros ?; reflexivity
  | |- silent W (if ?b then _ else _) => destruct b
  | |- silent W (match ?x with Some _ => _ | None => _ end) => destruct x
  | |- silent W (match ?x with [] => _ | _ :: _ => _ end) => destruct x
  | |- silent W (let _ := _ in _) => cbv zeta
  end.

Lemma silent_callRead : silent W callRead.
Proof. unfold callRead. repeat silent_step. Qed.

Lemma silent_callReset : silent W callReset.
Proof. unfold callReset. repeat silent_step. Qed.

Lemma silent_callPublish ev pos : silent W (callPublish ev pos).
Proof. unfold callPublish. repeat silent_step. Qed.

Lemma silent_timed_Wait d : silent W (timed_Wait d).
Proof. unfold timed_Wait. repeat silent_step. Qed.

Lemma silent_initCheckpoint : silent W initCheckpoint.
Proof. unfold initCheckpoint. repeat silent_step. Qed.

Lemma silent_resetHandle : silent W resetHandle.
Proof.
  unfold resetHandle. apply silent_bind; [apply silent_callReset|intros ?].
  repeat silent_step.
Qed.

Lemma silent_publishRecords records : silent W (publishRecords records).
Proof.
  induction records as [|record rest IH]; cbn [publishRecords];
    [apply silent_ret|].
  apply silent_bind; [apply silent_callPublish|intros [e|]]; [|exact IH].
  repeat silent_step.
Qed.

Lemma silent_reading : silent W reading.
Proof.
  unfold reading.
  repeat first
    [ apply silent_callRead | apply silent_resetHandle
    | apply silent_timed_Wait | apply silent_publishRecords | silent_step ].
Qed.

(** The flag after an opening pass, by the result of its [open()]. *)
Lemma opening_flag (st : St W) cp st0 openErr st1 :
  cancelCtx_Err st = false ->
  initCheckpoint st = (cp, st0) ->
  callOpen cp st0 = (openErr, st1) ->
  let flag := channelNotFoundErrDetected (stateOf (step (At Opening st))) in
  (openErr = None -> flag = false) /\
  (negb (api_IsFile (world st1)) && IsChannelNotFound openErr = true ->
   flag = true) /\
  (openErr <> None ->
   negb (api_IsFile (world st1)) && IsChannelNotFound openErr = false ->
   flag = channelNotFoundErrDetected st).
Proof.
  intros Hc Hinit Hopen.
  destruct (opening_spec st cp st0 openErr st1 Hc Hinit Hopen)
    as (st' & l & Hop & _ & _ & Hflag & _).
  assert (Hst : stateOf (step (At Opening st)) = st').
  { unfold step. rewrite Hop. now destruct (openOutcome _ _ _). }
  cbv zeta. rewrite Hst, Hflag. unfold flagAfterOpen.
  assert (Hexcl : IsChannelNotFound openErr = true ->
                  IsRecoverable openErr = false).
  { destruct openErr as [e|]; [|reflexivity]. cbn. now destruct (kindOf e). }
  split; [|split].
  - intros ->. cbn. now rewrite andb_false_r.
  - intros Hchan. apply andb_prop in Hchan as Hboth.
    destruct Hboth as [_ Hnf]. now rewrite (Hexcl Hnf), Hchan.
  - intros Hne Hchan. rewrite Hchan.
    destruct (IsRecoverable openErr); [reflexivity|].
    destruct openErr; [reflexivity|contradiction].
Qed.

(** What an opening pass adds to the call log agrees with what it does to
    the flag. *)
Lemma opening_reported (st : St W) :
  channelNotFoundErrDetected st = reportedAfter false (calls st) ->
  channelNotFoundErrDetected (stateOf (step (At Opening st))) =
    reportedAfter false (calls (stateOf (step (At Opening st)))).
Proof.
  intros Hinv. destruct (cancelCtx_Err st) eqn:Hc.
  { now rewrite (opening_cancelled st Hc). }
  destruct (initCheckpoint st) as [cp st0] eqn:Hinit.
  destruct (silent_initCheckpoint st) as (l0 & Hl0 & Hq0).
  rewrite Hinit in Hl0. cbn [snd] in Hl0.
  destruct (callOpen cp st0) as [openErr st1] eqn:Hopen.
  destruct (callOpen_spec _ _ _ _ Hopen) as [_ (l1 & Hl1 & Hown1 & _)].
  destruct (opening_spec st cp st0 openErr st1 Hc Hinit Hopen)
    as (st' & l & Hop & Hl & Hown & Hflag & _).
  assert (Hst : stateOf (step (At Opening st)) = st').
  { unfold step. rewrite Hop. now destruct (openOutcome _ _ _). }
  rewrite Hst, Hflag, Hl, Hl1, Hl0, Hinv.
  rewrite !reportedAfter_app, Hq0.
  set (b := reportedAfter false (calls st)).
  change (COpen cp openErr :: l1) with ([COpen cp openErr] ++ l1).
  change (CUpdateStatus Running (Lit "") :: l)
    with ([CUpdateStatus Running (Lit "")] ++ l).
  rewrite !reportedAfter_app.
  rewrite <- (own_reportedAfter _ l1), Hown1.
  rewrite <- (own_reportedAfter _ l), Hown.
  assert (Hexcl : IsRecoverable openErr = true -> openErr <> None).
  { now destruct openErr. }
  unfold flagAfterOpen, afterOpen.
  destruct (IsRecoverable openErr) eqn:Hrec.
  { destruct openErr; [reflexivity|now destruct (Hexcl eq_refl)]. }
  destruct (negb (api_IsFile (world st1)) && IsChannelNotFound openErr)
    eqn:Hchan.
  { now destruct (channelNotFoundErrDetected st), openErr. }
  now destruct openErr.
Qed.

(** At every point of a run the flag says whether a missing channel has been
    logged since the start of [Run] or the latest successful [open()]. *)
Lemma flag_is_reported (w : W) k :
  channelNotFoundErrDetected (stateOf (steps k (start w))) =
    reportedAfter false (calls (stateOf (steps k (start w)))).
Proof.
  apply (steps_invariant
    (fun c => channelNotFoundErrDetected (stateOf c) =
              reportedAfter false (calls (stateOf c)))).
  - intros [[|] st|e st] Hc; cbn [stateOf] in Hc; [| |exact Hc].
    + now apply opening_reported.
    + assert (Hflag : channelNotFoundErrDetected
                        (stateOf (step (At Reading st))) =
                      channelNotFoundErrDetected st).
      { pose proof (steady_reading st) as Hs. unfold step.
        destruct (reading st) as [[ph|err] st']; exact Hs. }
      assert (Hlog : exists l,
        calls (stateOf (step (At Reading st))) = calls st ++ l /\
        forall b, reportedAfter b l = b).
      { pose proof (silent_reading st) as Hs. unfold step.
        destruct (reading st) as [[ph|err] st']; exact Hs. }
      destruct Hlog as (l & Hl & Hq).
      now rewrite Hflag, Hl, reportedAfter_app, Hq.
  - destruct (start_spec w) as (st & -> & Hown & Hflag). cbn [stateOf].
    now rewrite Hflag, <- own_reportedAfter, Hown.
Qed.

End FlagFacts.

Section ChannelNotFound.

Context {W : Type} `{EventLog W} `{Cursor W} `{Publisher W} `{Canceler W}.


End ChannelNotFound.

Section RetryFacts.

Context {W : Type} `{EventLog W} `{Cursor W} `{Publisher W} `{Canceler W}.

(** After a pass whose [open()] failed recoverably, [cancelCtx] is done
    exactly when the signal stood as [open()] returned or came during the
    5 second wait. *)
Lemma retry_done (st : St W) :
  cancelCtx_Err st = false ->
  IsRecoverable (fst (api_Open (fst (initCheckpoint st)) (world st))) = true ->
  cancelCtx_Err (stateOf (step (At Opening st))) =
    (let after := snd (api_Open (fst (initCheckpoint st)) (world st)) in
     Cancelation_Err after || Cancelation_Err (elapse (5 * Second)%Z after)).
Proof.
  intros Hc Hrec.
  destruct (initCheckpoint st) as [cp st0] eqn:Hinit.
  pose proof (initCheckpoint_spec st) as (Hw0 & Hc0 & _).
  rewrite Hinit in Hw0, Hc0. cbn [fst snd] in *.
  destruct (callOpen cp st0) as [openErr st1] eqn:Hopen.
  destruct (callOpen_spec _ _ _ _ Hopen) as [Herr Ha].
  pose proof (answered_done _ _ _ _ Ha) as Hdone.
  destruct Ha as (l1 & _ & _ & _ & _ & Hquiet & _).
  rewrite Hw0 in Herr, Hdone, Hquiet. rewrite Hc0, Hc in Hdone.
  cbn [orb] in Hdone.
  destruct (opening_spec st cp st0 openErr st1 Hc Hinit Hopen)
    as (st' & l2 & Hop & _ & _ & _ & _ & _ & Hretry & _).
  rewrite <- Herr in Hrec. specialize (Hretry Hrec).
  unfold openOutcome in Hop. rewrite Hrec in Hop.
  unfold step. rewrite Hop. cbn [stateOf]. rewrite Hretry.
  unfold retryState. rewrite timed_Wait_done.
  unfold UpdateStatus, emit. cbn [fst snd cancelCtx_Err world].
  rewrite Hdone.
  destruct (Cancelation_Err (snd (api_Open cp (world st)))) eqn:Hsig;
    [reflexivity|].
  destruct (Hquiet Hdone) as [-> _]. reflexivity.
Qed.

Section Ending.

Variable Inv : W -> Prop.
Hypothesis open_fails : forall w cp,
  Inv w ->
  IsRecoverable (fst (api_Open cp w)) = true /\ Inv (snd (api_Open cp w)).
Hypothesis time_passes : forall w d, Inv w -> Inv (elapse d w).
Hypothesis close_keeps : forall w, Inv w -> Inv (snd (api_Close w)).

(** The retry loop is left in one way only: [cancelCtx] is found done at
    the head of [runLoop], and nil is returned from there. *)
Lemma retry_ends n (st : St W) err st' :
  Inv (world st) ->
  steps n (At Opening st) = Halted err st' ->
  err = None /\ cancelCtx_Err st' = true /\
  exists k, k < n /\ steps k (At Opening st) = At Opening st'.
Proof.
  revert st. induction n as [|n IH]; intros st Hw Hn; [discriminate|].
  cbn [steps] in Hn. destruct (cancelCtx_Err st) eqn:Hc.
  - rewrite (opening_cancelled st Hc), steps_Halted in Hn.
    injection Hn as <- <-. split; [reflexivity|]. split; [exact Hc|].
    exists 0. split; [lia|reflexivity].
  - destruct (retry_pass Inv open_fails time_passes close_keeps st Hw Hc)
      as (st1 & l & Hs & Hw1 & _).
    rewrite Hs in Hn. destruct (IH st1 Hw1 Hn) as (-> & Hc' & k & Hk & Hsk).
    split; [reflexivity|]. split; [exact Hc'|].
    exists (S k). split; [lia|]. cbn [steps]. now rewrite Hs.
Qed.

(** [Run] over such a source stays at the head of [runLoop]. *)
Lemma retry_from_start (w : W) k :
  Inv w ->
  match steps k (start w) with
  | At ph st' => ph = Opening /\ Inv (world st')
  | Halted err st' => err = None /\ cancelCtx_Err st' = true
  end.
Proof.
  intros Hw. unfold start, bind, set_detected, UpdateStatus, emit.
  pose proof (poll_world Inv close_keeps (mkSt w [] false false) Hw) as Hp.
  destruct (poll (mkSt w [] false false)) as [[] st0]. cbn [fst snd] in *.
  now apply (retry_forever Inv open_fails time_passes close_keeps).
Qed.

End Ending.

(** C8. While [open()] keeps W returning Recoverable errors, every pass waits
    the fixed 5 seconds and comes back to the head of [runLoop], with
    [cancelCtx] done exactly when the signal came during the [open()] or the
    wait. At the head, a done [cancelCtx] ends the loop at once with nil and
    without another [open()]; otherwise [open()] is called again. The loop
    is left in no other way: after any number of passes the runner is still
    at the head, or has returned nil from a head where [cancelCtx] was done;
    and without the signal it is still retrying after [n] passes, for every
    [n]. For [Run] itself: once the signal stands at the head, [Run] returns
    nil, and it returns nothing else. *)
Theorem recoverable_open_retries_until_cancelled
    (Inv : W -> Prop) (st : St W) (n : nat) :
  (forall w cp, Inv w ->
     IsRecoverable (fst (api_Open cp w)) = true /\
     Inv (snd (api_Open cp w))) ->
  (forall w d, Inv w -> Inv (elapse d w)) ->
  (forall w, Inv w -> Inv (snd (api_Close w))) ->
  Inv (world st) ->
  (cancelCtx_Err st = false ->
   exists st' l,
     step (At Opening st) = At Opening st' /\
     calls st' = calls (snd (initCheckpoint st)) ++ l /\
     own l =
       (let cp := fst (initCheckpoint st) in
        let openErr := fst (api_Open cp (world st)) in
        [COpen cp openErr;
         CUpdateStatus Running (Lit "");
         Log_Errorw
           "Encountered recoverable error when opening Windows Event Log"
           openErr;
         CWait (5 * Second)%Z]) /\
     channelNotFoundErrDetected st' = channelNotFoundErrDetected st /\
     Inv (world st') /\
     cancelCtx_Err st' =
       (let after := snd (api_Open (fst (initCheckpoint st)) (world st)) in
        Cancelation_Err after ||
        Cancelation_Err (elapse (5 * Second)%Z after))) /\
  (cancelCtx_Err st = true ->
   step (At Opening st) = Halted None st /\
   forall m, steps (S m) (At Opening st) = Halted None st) /\
  match steps n (At Opening st) with
  | At ph st' => ph = Opening /\ Inv (world st')
  | Halted err st' =>
      err = None /\ cancelCtx_Err st' = true /\
      exists k, k < n /\ steps k (At Opening st) = At Opening st'
  end /\
  ((forall w, Inv w -> Cancelation_Err w = false) ->
   cancelCtx_Err st = false ->
   exists st' l,
     steps n (At Opening st) = At Opening st' /\
     cancelCtx_Err st' = false /\
     calls st' = calls st ++ l /\
     waits l = repeat (5 * Second)%Z n /\
     List.length (opens l) = n) /\
  (forall w, Inv w ->
     (forall k ph st',
        steps k (start w) = At ph st' ->
        ph = Opening /\
        (Cancelation_Err (world st') = true \/ cancelCtx_Err st' = true ->
         cancelCtx_Err st' = true /\
         forall fuel, k < fuel -> Run fuel w = Some (None, st'))) /\
     (forall fuel err st',
        Run fuel w = Some (err, st') ->
        err = None /\
        exists k, k < fuel /\ steps k (start w) = At Opening st' /\
          cancelCtx_Err st' = true)).
Proof.
  intros Hopen Htime Hclose Hw. split; [|split; [|split; [|split]]].
  - intros Hc.
    destruct (retry_pass Inv Hopen Htime Hclose st Hw Hc)
      as (st' & l & Hs & Hw' & Hl & Hown & Hflag & _).
    exists st', l. split; [exact Hs|]. split; [exact Hl|].
    split; [exact Hown|]. split; [exact Hflag|]. split; [exact Hw'|].
    pose proof (retry_done st Hc) as Hdone. rewrite Hs in Hdone.
    apply Hdone. now apply Hopen.
  - intros Hc. split; [now apply opening_cancelled|].
    intros m. cbn [steps]. rewrite (opening_cancelled st Hc).
    apply steps_Halted.
  - pose proof (retry_forever Inv Hopen Htime Hclose n st Hw) as Hn.
    destruct (steps n (At Opening st)) as [ph st'|err st'] eqn:Hs;
      [exact Hn|].
    exact (retry_ends Inv Hopen Htime Hclose n st err st' Hw Hs).
  - intros Hquiet Hc.
    now apply (retry_unbounded Inv Hopen Htime Hclose).
  - intros w Hi. split.
    + intros k ph st' Hk.
      pose proof (retry_from_start Inv Hopen Htime Hclose w k Hi) as Hat.
      rewrite Hk in Hat. destruct Hat as [-> _].
      split; [reflexivity|]. intros Hsig.
      assert (Hc : cancelCtx_Err st' = true).
      { destruct Hsig as [Hsig|Hc]; [|exact Hc].
        pose proof (observed_steps w k) as Hobs. rewrite Hk in Hobs.
        now apply Hobs. }
      split; [exact Hc|]. intros fuel Hfuel.
      rewrite (Run_returns w k Opening st' None st' Hk
                 (opening_cancelled st' Hc) fuel Hfuel).
      unfold cancelFn. now rewrite (fire_done st' Hc).
    + intros fuel err st' HR. unfold Run, runLoop in HR.
      destruct (steps fuel (start w)) as [ph st1|e st1] eqn:Hs;
        [discriminate|].
      injection HR as <- <-.
      assert (Hstart : exists st0, start w = At Opening st0 /\ Inv (world st0)).
      { pose proof (retry_from_start Inv Hopen Htime Hclose w 0 Hi) as Hat.
        cbn [steps] in Hat. unfold start in *.
        eexists. split; [reflexivity|]. apply Hat. }
      destruct Hstart as (st0 & Hst0 & Hw0). rewrite Hst0 in Hs.
      destruct (retry_ends Inv Hopen Htime Hclose fuel st0 e st1 Hw0 Hs)
        as (-> & Hc & k & Hk & Hsk).
      split; [reflexivity|]. exists k. rewrite Hst0.
      unfold cancelFn. rewrite (fire_done st1 Hc). cbn [snd].
      now repeat split.
Qed.

End RetryFacts.

(** * The further properties on the scripted worlds *)



Lemma recoverable_open_retries_until_cancelled_witness :
  (stillFailing (world (reached neverOpens 0)) /\
   cancelCtx_Err (reached neverOpens 0) = false /\
   exists st' l,
     steps 3 (At Opening (reached neverOpens 0)) = At Opening st' /\
     waits l = [(5 * Second)%Z; (5 * Second)%Z; (5 * Second)%Z] /\
     List.length (opens l) = 3) /\
  (keepsFailing cancelledWhileRetrying /\
   steps 2 (start cancelledWhileRetrying) =
     At Opening (reached cancelledWhileRetrying 2) /\
   Cancelation_Err (world (reached cancelledWhileRetrying 1)) = false /\
   Cancelation_Err (world (reached cancelledWhileRetrying 2)) = true /\
   Run 3 cancelledWhileRetrying =
     Some (None, reached cancelledWhileRetrying 2) /\
   opens (calls (reached cancelledWhileRetrying 2)) =
     [(zeroState, Some staleHandle); (zeroState, Some staleHandle)] /\
   waits (calls (reached cancelledWhileRetrying 2)) =
     [(5 * Second)%Z; (5 * Second)%Z]).
Proof.
  split.
  - assert (Hw : stillFailing (world (reached neverOpens 0))) by now split.
    split; [exact Hw|]. split; [reflexivity|].
    destruct (recoverable_open_retries_until_cancelled stillFailing
                (reached neverOpens 0) 3) as (_ & _ & _ & Hn & _).
    + intros w cp [Ho Hc]. cbn. rewrite Ho. now split.
    + intros w d Hi. exact Hi.
    + intros w Hi. exact Hi.
    + exact Hw.
    + destruct Hn as (st' & l & Hs & _ & _ & Hwt & Ho).
      * intros w [_ Hc]. cbn. now rewrite Hc.
      * reflexivity.
      * exists st', l. split; [exact Hs|]. split; [exact Hwt|exact Ho].
  - assert (Hw : keepsFailing cancelledWhileRetrying) by (intros t; reflexivity).
    assert (Hw0 : keepsFailing (world (reached cancelledWhileRetrying 0)))
      by (intros t; reflexivity).
    assert (H2 : steps 2 (start cancelledWhileRetrying) =
                 At Opening (reached cancelledWhileRetrying 2))
      by (vm_compute; reflexivity).
    assert (H3 : Cancelation_Err (world (reached cancelledWhileRetrying 2)) =
                 true) by (vm_compute; reflexivity).
    split; [exact Hw|]. split; [exact H2|].
    split; [vm_compute; reflexivity|]. split; [exact H3|].
    split; [|split; vm_compute; reflexivity].
    destruct (recoverable_open_retries_until_cancelled keepsFailing
                (reached cancelledWhileRetrying 0) 0) as (_ & _ & _ & _ & HR).
    + intros w cp Ho. cbn. rewrite Ho. now split.
    + intros w d Hi. exact Hi.
    + intros w Hi. exact Hi.
    + exact Hw0.
    + destruct (HR cancelledWhileRetrying Hw) as (Hhead & _).
      destruct (Hhead 2 Opening _ H2) as (_ & Hnil).
      destruct (Hnil (or_introl H3)) as (_ & Hrun).
      apply Hrun. lia.
Defined.

Lemma empty_read_polls_again_witness :
  cancelCtx_Err (reached idle 1) = false /\
  callRead (reached idle 1) = (([], None), snd (callRead (reached idle 1))) /\
  exists st',
    step (At Reading (reached idle 1)) = At Reading st' /\
    waits (calls st') = [Second].
Proof.
  assert (H1 : cancelCtx_Err (reached idle 1) = false) by reflexivity.
  assert (H2 : callRead (reached idle 1) =
               (([], None), snd (callRead (reached idle 1)))) by reflexivity.
  split; [exact H1|]. split; [exact H2|].
  destruct (empty_read_polls_again _ _ H1 H2) as (st' & l & Hs & _).
  exists st'. split; [exact Hs|].
  vm_compute in Hs. injection Hs as <-. reflexivity.
Defined.

Lemma open_resumes_from_cursor_witness :
  cancelCtx_Err (reached resuming 0) = false /\
  exists l openErr,
    calls (stateOf (step (At Opening (reached resuming 0)))) =
      calls (reached resuming 0) ++ l /\
    opens l = [(position 42, openErr)].
Proof.
  assert (H1 : cancelCtx_Err (reached resuming 0) = false) by reflexivity.
  split; [exact H1|].
  destruct (open_resumes_from_cursor _ H1) as (l & openErr & Hl & Ho & _).
  exists l, openErr. split; [exact Hl|exact Ho].
Defined.

Lemma reading_means_running_witness :
  steps 2 (start scenarioA) = At Reading (reached scenarioA 2) /\
  lastStatus (calls (reached scenarioA 2)) = Some (Running, Lit "").
Proof.
  assert (H1 : steps 2 (start scenarioA) = At Reading (reached scenarioA 2))
    by reflexivity.
  split; [exact H1|]. exact (reading_means_running scenarioA 2 _ H1).
Defined.

Lemma error_exit_is_degraded_witness :
  Run 2 publishFails =
    Some (Some disconnected, snd (cancelFn (stateOf (steps 2 (start publishFails)))))
  /\
  exists msg,
    lastStatus
      (calls (snd (cancelFn (stateOf (steps 2 (start publishFails)))))) =
    Some (Degraded, msg).
Proof.
  assert (H1 : Run 2 publishFails =
    Some (Some disconnected,
          snd (cancelFn (stateOf (steps 2 (start publishFails))))))
    by (vm_compute; reflexivity).
  split; [exact H1|]. exact (error_exit_is_degraded publishFails 2 _ _ H1).
Defined.

Lemma nil_exit_is_shutdown_or_eof_witness :
  runLoop 3 scenarioA = Some (None, reached scenarioA 3) /\
  (cancelCtx_Err (reached scenarioA 3) = true \/
   exists records e,
     last (map Some (reads (calls (reached scenarioA 3)))) None =
       Some (records, Some e) /\
     Is_EOF e = true).
Proof.
  assert (H1 : runLoop 3 scenarioA = Some (None, reached scenarioA 3))
    by (vm_compute; reflexivity).
  split; [exact H1|]. exact (nil_exit_is_shutdown_or_eof scenarioA 3 _ H1).
Defined.

(** * The configuration provider *)

Section ProviderFacts.

Import Provider.

Context {Cfg OTel Raw Retrieved E : Type} `{Loader Cfg OTel Raw Retrieved E}.

Lemma prefix_app (p rest : string) : prefix p (p ++ rest) = true.
Proof.
  induction p as [|a p IH]; cbn; [now destruct rest|].
  destruct (Ascii.ascii_dec a a); [exact IH|contradiction].
Qed.

Lemma prefix_split (p s : string) :
  prefix p s = true -> exists rest, s = (p ++ rest)%string.
Proof.
  revert s. induction p as [|a p IH]; intros s Hp; [now exists s|].
  destruct s as [|b s]; [discriminate|]. cbn in Hp.
  destruct (Ascii.ascii_dec a b) as [->|]; [|discriminate].
  destruct (IH s Hp) as [rest ->]. now exists rest.
Qed.

Lemma substring_all (s : string) : substring 0 (String.length s) s = s.
Proof. induction s as [|a s IH]; cbn; [reflexivity|now rewrite IH]. Qed.

Lemma sliceFrom_app (p rest : string) :
  sliceFrom (String.length p) (p ++ rest) = rest.
Proof.
  unfold sliceFrom. induction p as [|a p IH]; cbn [String.length append].
  - rewrite Nat.sub_0_r. apply substring_all.
  - cbn [substring]. exact IH.
Qed.

(** X9. [Retrieve] refuses a uri as unsupported, printing nothing, exactly
    when the uri does not start with the scheme and a colon. *)
Theorem Retrieve_unsupported_iff (uri : string) :
  Retrieve uri =
    ([], inr (Errorf_qq "%q uri is not supported by %q provider" uri
                "filebeat"))
  <-> forall path, uri <> ("filebeat:" ++ path)%string.
Proof.
  unfold Retrieve.
  change (schemeName ++ ":")%string with "filebeat:".
  destruct (prefix "filebeat:" uri) eqn:Hp; cbn [negb]; split.
  - intros HR. exfalso.
    destruct (cfgfile_Load _) as [cfg|e]; [|discriminate].
    destruct (ToOTelConfig cfg) as [esCfg|e]; [|discriminate].
    cbv zeta in HR. discriminate.
  - intros Hno. destruct (prefix_split _ _ Hp) as [rest ->].
    now destruct (Hno rest).
  - intros _ path ->. now rewrite (prefix_app "filebeat:" path) in Hp.
  - reflexivity.
Qed.

(** X10. For a uri [filebeat:<path>] the file loaded is the cleaned [<path>],
    whatever it is (the empty path included). A failure to load it, or to
    derive the exporter configuration from it, is returned as it is and
    nothing is printed; otherwise the exporter configuration comes from the
    file as loaded, the receiver configuration from the file with its
    [output] replaced, and the map is printed once. *)
Theorem Retrieve_loads_path_after_scheme (path : string) :
  let uri := ("filebeat:" ++ path)%string in
  (forall e, cfgfile_Load (filepath_Clean path) = inr e ->
     Retrieve uri = ([], inr (Passed e))) /\
  (forall cfg e,
     cfgfile_Load (filepath_Clean path) = inl cfg ->
     ToOTelConfig cfg = inr e ->
     Retrieve uri = ([], inr (Passed e))) /\
  (forall cfg esCfg,
     cfgfile_Load (filepath_Clean path) = inl cfg ->
     ToOTelConfig cfg = inl esCfg ->
     let m :=
       cfgMap esCfg
         (Unpack
            (SetChild "output" (-1)
               (SetString "otelconsumer" (-1) "" NewConfig) cfg)) in
     Retrieve uri =
       ([MarshalIndent m "" " "],
        match NewRetrieved m with
        | inl r => inl r
        | inr err => inr (Passed err)
        end)).
Proof.
  cbv zeta. unfold Retrieve.
  change (schemeName ++ ":")%string with "filebeat:".
  rewrite (prefix_app "filebeat:" path). cbn [negb].
  change (String.length schemeName + 1) with (String.length "filebeat:").
  rewrite (sliceFrom_app "filebeat:" path).
  split; [|split].
  - now intros e ->.
  - now intros cfg e -> ->.
  - now intros cfg esCfg -> ->.
Qed.

End ProviderFacts.

(** * The plugin configuration *)

Section ConfigureFacts.

Import Configure.

Context {C Source : Type} `{Config C Source}.

Lemma newSources_spec (cfgs : list C) :
  match newSources cfgs with
  | inl sources => Forall2 (fun c s => eventlog_New c = inl s) cfgs sources
  | inr err =>
      exists made sources c rest e,
        cfgs = made ++ c :: rest /\
        Forall2 (fun c s => eventlog_New c = inl s) made sources /\
        eventlog_New c = inr e /\
        err = Errorf_w "failed to create new event log. %w" e
  end.
Proof.
  induction cfgs as [|c cfgs IH]; cbn [newSources]; [constructor|].
  destruct (eventlog_New c) as [s|e] eqn:Hnew.
  - destruct (newSources cfgs) as [sources|err].
    + now constructor.
    + destruct IH as (made & sources & c' & rest & e & -> & Hmade & Hc & ->).
      exists (c :: made), (s :: sources), c', rest, e.
      split; [reflexivity|]. split; [now constructor|]. now split.
  - exists [], [], c, cfgs, e.
    split; [reflexivity|]. split; [constructor|]. now split.
Qed.

(** X11. [configure] is all or nothing. On success there is one source per
    configured event log, made by [eventlog.New] from the configuration at
    the same place in the list: the entries of [event_logs] when that field
    is present (none for an empty list), else the configuration itself.
    Otherwise the error is the one of [Unpack], or the wrapped error of the
    first configuration [eventlog.New] refuses. *)
Theorem configure_all_or_nothing (cfg : C) :
  let configured :=
    if HasField cfg "event_logs" then Unpack_EventLogs cfg else inl [cfg] in
  match configure cfg with
  | inl (sources, input) =>
      exists cfgs,
        configured = inl cfgs /\
        Forall2 (fun c s => eventlog_New c = inl s) cfgs sources
  | inr err =>
      (exists e, configured = inr e /\ err = Passed e) \/
      exists cfgs made sources c rest e,
        configured = inl cfgs /\
        cfgs = made ++ c :: rest /\
        Forall2 (fun c s => eventlog_New c = inl s) made sources /\
        eventlog_New c = inr e /\
        err = Errorf_w "failed to create new event log. %w" e
  end.
Proof.
  cbv zeta. unfold configure.
  assert (Hgo : forall cfgs,
    match
      match newSources cfgs with
      | inl sources => inl (sources, eventlogRunner)
      | inr err => inr err
      end
    with
    | inl (sources, input) =>
        Forall2 (fun c s => eventlog_New c = inl s) cfgs sources
    | inr err =>
        exists made sources c rest e,
          cfgs = made ++ c :: rest /\
          Forall2 (fun c s => eventlog_New c = inl s) made sources /\
          eventlog_New c = inr e /\
          err = Errorf_w "failed to create new event log. %w" e
    end).
  { intros cfgs. pose proof (newSources_spec cfgs) as Hs.
    now destruct (newSources cfgs). }
  destruct (HasField cfg "event_logs").
  - destruct (Unpack_EventLogs cfg) as [cfgs|e].
    + specialize (Hgo cfgs).
      destruct (newSources cfgs) as [sources|err].
      * now exists cfgs.
      * right. destruct Hgo as (made & sources & c & rest & e & Hgo).
        now exists cfgs, made, sources, c, rest, e.
    + left. now exists e.
  - specialize (Hgo [cfg]).
    destruct (newSources [cfg]) as [sources|err].
    + now exists [cfg].
    + right. destruct Hgo as (made & sources & c & rest & e & Hgo).
      now exists [cfg], made, sources, c, rest, e.
Qed.

End ConfigureFacts.

(** * [pidToUInt32] *)

Section PidFacts.

Import Sessionmd.

Context {NumError : Type} (Atoi : string -> Z + NumError).

Lemma uint32_fixed (n : Z) : (uint32 n =? n)%Z = true <-> (0 <= n < 2 ^ 32)%Z.
Proof.
  unfold uint32. rewrite Z.eqb_eq. split.
  - intros <-. apply Z.mod_pos_bound. reflexivity.
  - intros Hn. now apply Z.mod_small.
Qed.

(** X12. For an integer of any kind but [uint32], [pidToUInt32] succeeds
    exactly when the number lies in [0, 2^32), and then returns that
    number. *)
Theorem pidToUInt32_integer_in_range (value : Value) (n pid : Z) :
  (exists k, value = VSigned k n) \/ (exists k, value = VUnsigned k n) ->
  pidToUInt32 Atoi value = inl pid <-> (0 <= n < 2 ^ 32)%Z /\ pid = n.
Proof.
  intros [[k ->]|[k ->]]; cbn [pidToUInt32]; cbv zeta;
    destruct (uint32 n =? n)%Z eqn:Heq; cbn [negb]; split;
    try discriminate.
  all: try (intros [= <-]; split; [now apply uint32_fixed|];
            now apply Z.eqb_eq).
  all: try (intros [_ ->]; f_equal; now apply Z.eqb_eq).
  all: intros [Hn _]; apply uint32_fixed in Hn; congruence.
Qed.

(** X13. A PID given as a string is not range checked: whatever number
    [strconv.Atoi] reads is cut to its low 32 bits and returned without
    error, so a negative or too large number comes back as a different PID,
    where the same number given as an integer is refused. *)
Theorem pidToUInt32_string_wraps (v : string) (nr : Z) :
  Atoi v = inl nr ->
  pidToUInt32 Atoi (VString v) = inl (nr mod 2 ^ 32)%Z /\
  ((nr < 0 \/ 2 ^ 32 <= nr)%Z ->
   pidToUInt32 Atoi (VString v) <> inl nr /\
   pidToUInt32 Atoi (VSigned KInt64 nr) =
     inr (Errorf_d "integer out of range: %d" nr)).
Proof.
  intros Hatoi. cbn [pidToUInt32]. rewrite Hatoi. split; [reflexivity|].
  intros Hout. cbv zeta.
  assert (Hne : (uint32 nr =? nr)%Z = false).
  { destruct (uint32 nr =? nr)%Z eqn:Heq; [|reflexivity].
    apply uint32_fixed in Heq. lia. }
  rewrite Hne. cbn [negb]. split; [|reflexivity].
  intros [= Heq]. apply Z.eqb_neq in Hne. contradiction.
Qed.

End PidFacts.

(** * The session metadata processor *)

Section SessionFacts.

Import Sessionmd.

Context {W Ev MapRef Proc ProcMap E NumError : Type}
        `{Enricher W Ev MapRef Proc ProcMap E}
        (Atoi : string -> Z + NumError).

(** [enrich] returns an event or an error, never neither. *)
Lemma enrich_event_or_error (p : Processor) (ev : Ev) (w : W) :
  match fst (enrich Atoi p ev w) with
  | (Some _, None) | (None, Some _) => True
  | _ => False
  end.
Proof.
  unfold enrich.
  destruct (ev_GetValue ev (config_PIDField p) w) as [pidIf|e]; [|exact I].
  destruct (pidToUInt32 Atoi pidIf) as [pid|e]; [|exact I].
  destruct (if String.eqb (backend p) "kernel_tracing"
            then provider_GetProcess pid w else db_GetProcess pid w)
    as [[proc|e] w1]; [|exact I].
  destruct (Fields_HasKey ev "process" w1) as [b herr].
  destruct (negb b || _); [exact I|].
  destruct (tryToMapStr (Fields_at ev "process" w1)) as [m|]; [|exact I].
  destruct (ev_Clone ev w1) as [result w2].
  destruct (MergeFieldsDeep m (ToMap proc) true w2) as [[e|] w3]; exact I.
Qed.

(** X14. An event is handed back as it came, with no error and the world
    untouched (the provider is not synchronised, nothing is looked up), when
    it has no PID field, when its [auditd.result] is the string [fail], or
    when its PID does not convert. *)
Theorem Run_passes_through (p : Processor) (ev : Ev) (w : W) :
  (exists e, ev_GetValue ev (config_PIDField p) w = inr e) \/
  ev_GetValue ev "auditd.result" w = inl (VString "fail") \/
  (exists pi e, ev_GetValue ev (config_PIDField p) w = inl pi /\
                pidToUInt32 Atoi pi = inr e) ->
  Run Atoi p ev w = ((Some ev, None), w).
Proof.
  unfold Run. intros [[e ->]|[Hfail|(pi & e & -> & Hpid)]].
  - reflexivity.
  - rewrite Hfail. cbn [isFail String.eqb].
    now destruct (ev_GetValue ev (config_PIDField p) w).
  - rewrite Hpid.
    now destruct (match ev_GetValue ev "auditd.result" w with
                  | inl v => isFail v | inr _ => false end).
Qed.

(** X15. [Run] never returns a nil event, and whenever it returns an error
    the event it returns is the one it was given: the error is the
    provider's own, or the one of [enrich] wrapped. *)
Theorem Run_always_returns_an_event (p : Processor) (ev : Ev) (w : W) :
  exists out,
    fst (fst (Run Atoi p ev w)) = Some out /\
    (forall err, snd (fst (Run Atoi p ev w)) = Some err ->
       out = ev /\
       ((exists e, err = RPassed e) \/
        exists cause, err = RErrorf_w "enriching event: %w" cause)).
Proof.
  unfold Run.
  destruct (ev_GetValue ev (config_PIDField p) w) as [pi|e];
    [|exists ev; split; [reflexivity|discriminate]].
  destruct (match ev_GetValue ev "auditd.result" w with
            | inl v => isFail v | inr _ => false end);
    [exists ev; split; [reflexivity|discriminate]|].
  destruct (pidToUInt32 Atoi pi) as [pid|e];
    [|exists ev; split; [reflexivity|discriminate]].
  destruct (provider_SyncDB ev pid w) as [[e|] w1].
  - exists ev. split; [reflexivity|]. intros err [= <-].
    split; [reflexivity|]. left. now exists e.
  - pose proof (enrich_event_or_error p ev w1) as He.
    destruct (enrich Atoi p ev w1) as [[[result|] [e|]] w2]; cbn in He;
      try contradiction.
    + exists result. split; [reflexivity|discriminate].
    + exists ev. split; [reflexivity|]. intros err [= <-].
      split; [reflexivity|]. right. now exists e.
Qed.

End SessionFacts.

Section NewFacts.

Import Sessionmd.

Context {Cfg DB Prov E : Type} `{Builder Cfg DB Prov E}.

Lemma cancels_app l1 l2 : cancels (l1 ++ l2) = cancels l1 + cancels l2.
Proof.
  induction l1 as [|a l1 IH]; [reflexivity|]. destruct a; cbn; now rewrite ?IH.
Qed.

Lemma did_app a l1 l2 : did a (l1 ++ l2) = did a l1 || did a l2.
Proof. unfold did. apply existsb_app. Qed.

(** X16. [New] calls [cancel()] exactly once when it fails after the context
    was made, and not at all when it succeeds or fails before; it never
    closes the database it made, whether it fails or not. *)
Theorem New_cancels_exactly_on_failure (cfg : Cfg) :
  cancels (fst (New cfg)) =
    (match snd (New cfg) with
     | inl _ => 0
     | inr _ => if did WithCancel (fst (New cfg)) then 1 else 0
     end) /\
  did DBClose (fst (New cfg)) = false.
Proof.
  unfold New. cbv zeta.
  destruct (cfg_Unpack cfg defaultConfig) as [c|e]; [|now split].
  destruct processdb_NewDB as [db|e]; [|now split].
  set (scrape := if negb (String.eqb (Backend c) "kernel_tracing")
                 then [ScrapeProcfs; Info "backfilled %d processes"]
                 else []).
  assert (Hs : cancels scrape = 0 /\ did DBClose scrape = false).
  { subst scrape. now destruct (negb _). }
  destruct Hs as [Hsc Hsd].
  destruct (String.eqb (Backend c) "auto");
    [destruct kerneltracingprovider_NewProvider;
     [|destruct (procfsprovider_NewProvider db (PIDField c))]|
     destruct (String.eqb (Backend c) "procfs");
     [destruct (procfsprovider_NewProvider db (PIDField c))|
      destruct (String.eqb (Backend c) "kernel_tracing");
      [destruct kerneltracingprovider_NewProvider|]]];
    cbn [fst snd]; rewrite !cancels_app, !did_app, Hsc, Hsd; now split.
Qed.

(** X17. The backend name is checked last: with a configuration that
    unpacks and a database that can be made, a backend other than [auto],
    [procfs] and [kernel_tracing] is refused only after the database was made
    and procfs scraped into it. Procfs is scraped for every backend but
    [kernel_tracing]. *)
Theorem New_checks_backend_last (cfg : Cfg) (c : config) (db : DB) :
  cfg_Unpack cfg defaultConfig = inl c ->
  processdb_NewDB = inl db ->
  did ScrapeProcfs (fst (New cfg)) =
    negb (String.eqb (Backend c) "kernel_tracing") /\
  did NewDB (fst (New cfg)) = true /\
  (String.eqb (Backend c) "auto" = false ->
   String.eqb (Backend c) "procfs" = false ->
   String.eqb (Backend c) "kernel_tracing" = false ->
   New cfg =
     ([Beta "add_session_metadata processor is a beta feature.";
       WithCancel; NewDB; ScrapeProcfs; Info "backfilled %d processes";
       Cancel],
      inr (NErrorf "unknown backend configuration"))).
Proof.
  intros Hc Hdb. unfold New. cbv zeta. rewrite Hc, Hdb.
  split; [|split].
  - destruct (String.eqb (Backend c) "kernel_tracing") eqn:Hk; cbn [negb].
    + assert (Ha : String.eqb (Backend c) "auto" = false).
      { apply String.eqb_eq in Hk. now rewrite Hk. }
      assert (Hp : String.eqb (Backend c) "procfs" = false).
      { apply String.eqb_eq in Hk. now rewrite Hk. }
      rewrite Ha, Hp. now destruct kerneltracingprovider_NewProvider.
    + destruct (String.eqb (Backend c) "auto");
        [destruct kerneltracingprovider_NewProvider;
         [|destruct (procfsprovider_NewProvider db (PIDField c))]|
         destruct (String.eqb (Backend c) "procfs");
         [destruct (procfsprovider_NewProvider db (PIDField c))|]];
        reflexivity.
  - destruct (String.eqb (Backend c) "auto");
      [destruct kerneltracingprovider_NewProvider;
       [|destruct (procfsprovider_NewProvider db (PIDField c))]|
       destruct (String.eqb (Backend c) "procfs");
       [destruct (procfsprovider_NewProvider db (PIDField c))|
        destruct (String.eqb (Backend c) "kernel_tracing");
        [destruct kerneltracingprovider_NewProvider|]]];
      reflexivity.
  - intros -> -> ->. reflexivity.
Qed.

End NewFacts.

(** * These properties on the test doubles *)

Import SessionFake.

Lemma error_exit_has_a_cause_witness :
  Run 2 publishFails =
    Some (Some disconnected,
          snd (cancelFn (stateOf (steps 2 (start publishFails))))) /\
  exists st,
    Run 2 publishFails = Some (Some disconnected, st) /\
    In (mkEvent "b", position 11, Some disconnected) (publishes (calls st)).
Proof.
  assert (H1 : Run 2 publishFails =
    Some (Some disconnected,
          snd (cancelFn (stateOf (steps 2 (start publishFails))))))
    by (vm_compute; reflexivity).
  split; [exact H1|].
  pose proof (error_exit_has_a_cause publishFails 2 _ _ H1) as _.
  eexists. split; [exact H1|]. vm_compute. right. now left.
Defined.

Lemma pidToUInt32_integer_in_range_witness :
  Sessionmd.pidToUInt32 SessionFake.atoi
    (Sessionmd.VSigned Sessionmd.KInt64 4242) = inl 4242%Z.
Proof.
  apply (pidToUInt32_integer_in_range SessionFake.atoi
           (Sessionmd.VSigned Sessionmd.KInt64 4242) 4242 4242).
  - left. now exists Sessionmd.KInt64.
  - split; [lia|reflexivity].
Defined.

Lemma pidToUInt32_string_wraps_witness :
  SessionFake.atoi "-1" = inl (-1)%Z /\
  Sessionmd.pidToUInt32 SessionFake.atoi (Sessionmd.VString "-1") =
    inl 4294967295%Z.
Proof.
  split; [reflexivity|].
  exact (proj1 (pidToUInt32_string_wraps SessionFake.atoi "-1" (-1) eq_refl)).
Defined.

Lemma Run_passes_through_witness :
  Sessionmd.ev_GetValue [("message", Sessionmd.VString "hello")]
    "process.pid" tt = inr "key not found" /\
  Sessionmd.Run SessionFake.atoi SessionFake.processor
    [("message", Sessionmd.VString "hello")] tt =
    ((Some [("message", Sessionmd.VString "hello")], None), tt).
Proof.
  split; [reflexivity|].
  apply (Run_passes_through SessionFake.atoi SessionFake.processor).
  left. now exists "key not found".
Defined.

Lemma New_checks_backend_last_witness :
  Sessionmd.cfg_Unpack "ebpf" Sessionmd.defaultConfig =
    inl (Sessionmd.mkConfig "ebpf" "process.pid") /\
  snd (Sessionmd.New "ebpf") =
    inr (Sessionmd.NErrorf "unknown backend configuration") /\
  Sessionmd.did Sessionmd.ScrapeProcfs (fst (Sessionmd.New "ebpf")) = true.
Proof.
  assert (H1 : Sessionmd.cfg_Unpack "ebpf" Sessionmd.defaultConfig =
               inl (Sessionmd.mkConfig "ebpf" "process.pid")) by reflexivity.
  assert (H2 : Sessionmd.processdb_NewDB = inl tt) by reflexivity.
  destruct (New_checks_backend_last "ebpf" _ _ H1 H2)
    as (Hscrape & _ & Hlast).
  split; [exact H1|]. split.
  - now rewrite (Hlast eq_refl eq_refl eq_refl).
  - exact Hscrape.
Defined.
